(** * qualys-cloudrun: a shallow embedding of the scan pipeline

    The development follows the four Python modules of the repository:
    [image_parser.py], [qualys_scanner_cloudrun.py], [storage_handler.py]
    and [main.py].  Python strings are sequences of Unicode code points,
    exceptions are explicit results, and the cloud services the code talks
    to are explicit state. *)

From Stdlib Require Import List String Ascii ZArith NArith QArith Bool.
From Stdlib Require Import Lia Lqa.
Import ListNotations.
Close Scope Q_scope.

Set Implicit Arguments.
Set Warnings "-register-all".

(** * Python values *)

Module Py.

(** ** Strings *)

(** A [str] is a sequence of code points. *)
Abbreviation char := N (only parsing).
Abbreviation str := (list N) (only parsing).

(** ASCII literals of the source text. *)
Fixpoint lit (s : string) : str :=
  match s with
  | EmptyString => []
  | String a t => N_of_ascii a :: lit t
  end.

Definition chr (a : ascii) : char := N_of_ascii a.

Fixpoint str_eqb (a b : str) : bool :=
  match a, b with
  | [], [] => true
  | x :: a', y :: b' => N.eqb x y && str_eqb a' b'
  | _, _ => false
  end.

(** [len(s)] *)
Definition len (s : str) : nat := List.length s.

(** [s.startswith(p)] *)
Fixpoint startswith (p s : str) : bool :=
  match p, s with
  | [], _ => true
  | x :: p', y :: s' => N.eqb x y && startswith p' s'
  | _ :: _, [] => false
  end.

(** [sub in s] for strings: [sub] occurs as a contiguous run of [s]. *)
Fixpoint contains (sub s : str) : bool :=
  startswith sub s ||
  match s with
  | [] => false
  | _ :: t => contains sub t
  end.

(** [s.partition(sep)]: the text before and after the first occurrence of
    [sep], when there is one. *)
Fixpoint partition (sep s : str) : option (str * str) :=
  if startswith sep s then Some ([], skipn (len sep) s)
  else match s with
       | [] => None
       | c :: t =>
           match partition sep t with
           | Some (a, b) => Some (c :: a, b)
           | None => None
           end
       end.

(** [s.rpartition(sep)]: the same around the last occurrence. *)
Definition rpartition (sep s : str) : option (str * str) :=
  match partition (rev sep) (rev s) with
  | Some (a, b) => Some (rev b, rev a)
  | None => None
  end.

(** [s.split(sep)] for a non-empty [sep] (every call site passes a
    literal): cut at each occurrence, left to right.  The fuel is the
    length of [s]; each cut consumes at least one character. *)
Fixpoint split_fuel (n : nat) (sep s : str) : list str :=
  match n with
  | O => [s]
  | S n' =>
      match partition sep s with
      | None => [s]
      | Some (a, b) => a :: split_fuel n' sep b
      end
  end.

Definition split (sep s : str) : list str := split_fuel (len s) sep s.

(** [s.rsplit(sep, 1)]: at most one cut, at the last occurrence. *)
Definition rsplit1 (sep s : str) : list str :=
  match rpartition sep s with
  | Some (a, b) => [a; b]
  | None => [s]
  end.

(** [sep.join(pieces)] *)
Fixpoint join (sep : str) (pieces : list str) : str :=
  match pieces with
  | [] => []
  | [p] => p
  | p :: rest => p ++ sep ++ join sep rest
  end.

(** [s.replace(old, new)] for a non-empty [old]: occurrences are replaced
    left to right and do not overlap.  [skip] counts the characters of a
    match that are still to be dropped. *)
Fixpoint replace_from (old new : str) (skip : nat) (s : str) : str :=
  match s with
  | [] => []
  | c :: t =>
      match skip with
      | S k => replace_from old new k t
      | O =>
          if startswith old s
          then new ++ replace_from old new (len old - 1) t
          else c :: replace_from old new 0 t
      end
  end.

Definition replace (old new s : str) : str := replace_from old new 0 s.

(** ** The Unicode tables

    [str.isalnum], [str.upper] and [str.lower] read the interpreter's
    Unicode database.  Their ASCII part is fixed below; the part for code
    points from 128 on is a parameter of the development.  [str.lower] is
    the only one that looks at the context of a character (final sigma),
    so its table receives the text before (reversed) and after it. *)

Class UnicodeData := {
  isalnum_hi : char -> bool;
  upper_hi : char -> str;
  lower_hi : str -> char -> str -> str
}.

Definition is_ascii (c : char) : bool := (c <? 128)%N.
Definition is_ascii_upper (c : char) : bool := (65 <=? c)%N && (c <=? 90)%N.
Definition is_ascii_lower (c : char) : bool := (97 <=? c)%N && (c <=? 122)%N.
Definition is_ascii_digit (c : char) : bool := (48 <=? c)%N && (c <=? 57)%N.

Section Unicode.
Context {U : UnicodeData}.

(** [c.isalnum()] *)
Definition isalnum (c : char) : bool :=
  if is_ascii c
  then is_ascii_upper c || is_ascii_lower c || is_ascii_digit c
  else isalnum_hi c.

Definition upper_char (c : char) : str :=
  if is_ascii c
  then [if is_ascii_lower c then (c - 32)%N else c]
  else upper_hi c.

(** [s.upper()] *)
Definition upper (s : str) : str := flat_map upper_char s.

Fixpoint lower_from (before s : str) : str :=
  match s with
  | [] => []
  | c :: t =>
      (if is_ascii c
       then [if is_ascii_upper c then (c + 32)%N else c]
       else lower_hi before c t)
      ++ lower_from (c :: before) t
  end.

(** [s.lower()] *)
Definition lower (s : str) : str := lower_from [] s.
End Unicode.

(** The database restricted to ASCII: no code point from 128 on is
    alphanumeric or has a case mapping.  It agrees with every interpreter
    on ASCII text and is used to run the definitions on such text. *)
Definition ascii_only : UnicodeData :=
  {| isalnum_hi := fun _ => false;
     upper_hi := fun c => [c];
     lower_hi := fun _ c _ => [c] |}.

(** ** Exceptions *)

(** The exception classes the code can meet; all derive from
    [Exception]. *)
Inductive exc_class :=
| ValueError | TypeError | AttributeError | KeyError | IndexError
| OverflowError | TimeoutError | JSONDecodeError | GoogleAPIError
| Exception_.

Record exn := mk_exn { exc_type : exc_class; exc_msg : str }.

Definition exc_class_eqb (a b : exc_class) : bool :=
  match a, b with
  | ValueError, ValueError | TypeError, TypeError
  | AttributeError, AttributeError | KeyError, KeyError
  | IndexError, IndexError | OverflowError, OverflowError
  | TimeoutError, TimeoutError | JSONDecodeError, JSONDecodeError
  | GoogleAPIError, GoogleAPIError | Exception_, Exception_ => true
  | _, _ => false
  end.

(** [isinstance(e, cls)]: [JSONDecodeError] derives from [ValueError],
    and everything derives from [Exception]. *)
Definition isinstance_exc (e : exn) (cls : exc_class) : bool :=
  match cls with
  | Exception_ => true
  | ValueError =>
      match exc_type e with
      | ValueError | JSONDecodeError => true
      | _ => false
      end
  | _ => exc_class_eqb (exc_type e) cls
  end.

(** The result of running a piece of code: a value, or a raised
    exception. *)
Inductive outcome (A : Type) :=
| Return (a : A)
| Raise (e : exn).
Arguments Return {A} a.
Arguments Raise {A} e.

Definition bind {A B} (m : outcome A) (k : A -> outcome B) : outcome B :=
  match m with
  | Return a => k a
  | Raise e => Raise e
  end.

(** [a, b = xs] *)
Definition unpack2 {A} (xs : list A) : outcome (A * A) :=
  match xs with
  | [a; b] => Return (a, b)
  | _ :: _ :: _ :: _ =>
      Raise (mk_exn ValueError (lit "too many values to unpack (expected 2)"))
  | [_] =>
      Raise (mk_exn ValueError
               (lit "not enough values to unpack (expected 2, got 1)"))
  | [] =>
      Raise (mk_exn ValueError
               (lit "not enough values to unpack (expected 2, got 0)"))
  end.

(** The levels of [logging]. *)
Inductive level := DEBUG | INFO | WARNING | ERROR.

(** ** Code with effects

    A piece of code that reads and changes a world [W] and may raise. *)
Definition M (W A : Type) : Type := W -> outcome A * W.

Definition ret {W A} (a : A) : M W A := fun w => (Return a, w).

Definition raise {W A} (e : exn) : M W A := fun w => (Raise e, w).

Definition bindM {W A B} (m : M W A) (k : A -> M W B) : M W B :=
  fun w =>
    match m w with
    | (Return a, w') => k a w'
    | (Raise e, w') => (Raise e, w')
    end.

(** A pure computation inside effectful code. *)
Definition lift {W A} (m : outcome A) : M W A := fun w => (m, w).

(** [try: body except cls as e: handler(e)] *)
Definition try_except {W A} (body : M W A) (cls : exc_class)
    (handler : exn -> M W A) : M W A :=
  fun w =>
    match body w with
    | (Return a, w') => (Return a, w')
    | (Raise e, w') =>
        if isinstance_exc e cls then handler e w' else (Raise e, w')
    end.

(** [try: body finally: cleanup]: the outcome of [body] stands unless
    [cleanup] itself raises. *)
Definition try_finally {W A} (body : M W A) (cleanup : M W unit) : M W A :=
  fun w =>
    match body w with
    | (r, w') =>
        match cleanup w' with
        | (Return _, w'') => (r, w'')
        | (Raise e, w'') => (Raise e, w'')
        end
    end.

(** ** Values *)

(** What [json.loads] can produce, which is also all the code builds.
    A float is kept as the text [repr] prints for it.  A dictionary lists
    its items in insertion order, each key once. *)
Inductive value :=
| VNone
| VBool (b : bool)
| VInt (z : Z)
| VFloat (repr : str)
| VStr (s : str)
| VList (items : list value)
| VDict (items : list (str * value)).

Definition type_name (v : value) : str :=
  match v with
  | VNone => lit "NoneType"
  | VBool _ => lit "bool"
  | VInt _ => lit "int"
  | VFloat _ => lit "float"
  | VStr _ => lit "str"
  | VList _ => lit "list"
  | VDict _ => lit "dict"
  end.

Fixpoint lookup {A} (k : str) (items : list (str * A)) : option A :=
  match items with
  | [] => None
  | (k', v) :: rest => if str_eqb k k' then Some v else lookup k rest
  end.

(** [d[k] = v] on a dictionary: replace in place, or append. *)
Fixpoint store {A} (k : str) (v : A) (items : list (str * A))
  : list (str * A) :=
  match items with
  | [] => [(k, v)]
  | (k', v') :: rest =>
      if str_eqb k k' then (k, v) :: rest else (k', v') :: store k v rest
  end.

(** [bool(v)] *)
Definition truthy (v : value) : bool :=
  match v with
  | VNone => false
  | VBool b => b
  | VInt z => negb (z =? 0)%Z
  | VFloat r => negb (str_eqb r (lit "0.0") || str_eqb r (lit "-0.0"))
  | VStr s => negb (len s =? 0)%nat
  | VList l => negb (List.length l =? 0)%nat
  | VDict l => negb (List.length l =? 0)%nat
  end.

(** [a or b] *)
Definition py_or (a b : value) : value := if truthy a then a else b.

(** [k in v] for a string [k] *)
Definition py_in (k : str) (v : value) : outcome bool :=
  match v with
  | VDict items =>
      Return (match lookup k items with Some _ => true | None => false end)
  | VList items =>
      Return (existsb (fun x => match x with
                                | VStr s => str_eqb s k
                                | _ => false
                                end) items)
  | VStr s => Return (contains k s)
  | _ =>
      Raise (mk_exn TypeError
               (lit "argument of type '" ++ type_name v
                  ++ lit "' is not iterable"))
  end.

(** [v[k]] for a string [k] *)
Definition getitem (v : value) (k : str) : outcome value :=
  match v with
  | VDict items =>
      match lookup k items with
      | Some x => Return x
      | None => Raise (mk_exn KeyError (lit "'" ++ k ++ lit "'"))
      end
  | VList _ =>
      Raise (mk_exn TypeError
               (lit "list indices must be integers or slices, not str"))
  | VStr _ =>
      Raise (mk_exn TypeError
               (lit "string indices must be integers, not 'str'"))
  | _ =>
      Raise (mk_exn TypeError
               (lit "'" ++ type_name v ++ lit "' object is not subscriptable"))
  end.

(** The items [for x in v] runs through. *)
Definition iter (v : value) : outcome (list value) :=
  match v with
  | VList items => Return items
  | VDict items => Return (map (fun kv => VStr (fst kv)) items)
  | VStr s => Return (map (fun c => VStr [c]) s)
  | _ =>
      Raise (mk_exn TypeError
               (lit "'" ++ type_name v ++ lit "' object is not iterable"))
  end.

(** [v.get(k, default)]: only dictionaries have the method. *)
Definition get (v : value) (k : str) (default : value) : outcome value :=
  match v with
  | VDict items =>
      Return (match lookup k items with Some x => x | None => default end)
  | _ =>
      Raise (mk_exn AttributeError
               (lit "'" ++ type_name v ++ lit "' object has no attribute 'get'"))
  end.

(** [isinstance(v, dict)] *)
Definition is_dict (v : value) : bool :=
  match v with VDict _ => true | _ => false end.

(** Lexicographic order on code points, the order in which Firestore
    compares strings. *)
Fixpoint str_leb (a b : str) : bool :=
  match a, b with
  | [], _ => true
  | _ :: _, [] => false
  | x :: a', y :: b' =>
      if (x <? y)%N then true
      else if (y <? x)%N then false
      else str_leb a' b'
  end.

(** ** Printing numbers *)

Definition digit (n : N) : char := (48 + n mod 10)%N.

(** The last [w] decimal digits of [n], most significant first. *)
Fixpoint fixed_digits (w : nat) (n : N) : str :=
  match w with
  | O => []
  | S w' => fixed_digits w' (n / 10) ++ [digit n]
  end.

Fixpoint strip_zeros (s : str) : str :=
  match s with
  | c :: (_ :: _) as t => if (c =? 48)%N then strip_zeros t else s
  | _ => s
  end.

(** [str(n)] for a natural number. *)
Definition decimal (n : N) : str :=
  strip_zeros (fixed_digits (S (N.to_nat (N.log2 n))) n).

(** C's [%0wd] for a natural number: zeros fill the width when the number
    has fewer digits, and a longer number is printed in full. *)
Definition pad (w : nat) (n : N) : str :=
  if (n <? 10 ^ N.of_nat w)%N then fixed_digits w n else decimal n.

(** [str(z)] for an integer. *)
Definition decimal_Z (z : Z) : str :=
  if (z <? 0)%Z then lit "-" ++ decimal (Z.abs_N z) else decimal (Z.abs_N z).

(** ** The rest of the interpreter

    Four library functions are parameters: [repr] of a list or dictionary,
    [int] of a string that is not a plain run of digits, and the JSON
    codec. *)
Class Runtime := {
  repr_container : value -> str;
  int_other : str -> outcome Z;
  json_loads : str -> outcome value;
  json_dumps : value -> outcome str
}.

Definition value_of_digits (s : str) : Z :=
  fold_left (fun acc c => (acc * 10 + (Z.of_N c - 48))%Z) s 0%Z.

Section Builtins.
Context {R : Runtime}.

(** [str(v)] *)
Definition py_str (v : value) : str :=
  match v with
  | VNone => lit "None"
  | VBool true => lit "True"
  | VBool false => lit "False"
  | VInt z => decimal_Z z
  | VFloat r => r
  | VStr s => s
  | VList _ | VDict _ => repr_container v
  end.

(** [int(s)]: a run of one to 4300 ASCII digits is read in base ten. *)
Definition py_int (s : str) : outcome Z :=
  if negb (len s =? 0)%nat && (len s <=? 4300)%nat
     && forallb is_ascii_digit s
  then Return (value_of_digits s)
  else int_other s.
End Builtins.

(** A stand-in for the interpreter, used to run the definitions on
    examples: it prints every container as an ellipsis, reads no number
    beyond plain digits, and decodes the empty object and the empty list
    only.  Python rejects the texts of the examples with the same
    message. *)
Definition example_runtime : Runtime :=
  {| repr_container := fun _ => lit "...";
     int_other := fun s =>
       Raise (mk_exn ValueError
                (lit "invalid literal for int() with base 10"));
     json_loads := fun s =>
       if str_eqb s (lit "{}") then Return (VDict [])
       else if str_eqb s (lit "[]") then Return (VList [])
       else Raise (mk_exn JSONDecodeError
                     (lit "Expecting value: line 1 column 1 (char 0)"));
     json_dumps := fun v => Return (lit "...") |}.

(** ** datetime *)

Record datetime := {
  year : Z; month : Z; day : Z;
  hour : Z; minute : Z; second : Z; microsecond : Z
}.

Definition valid_datetime (d : datetime) : Prop :=
  (1 <= year d <= 9999 /\ 1 <= month d <= 12 /\ 1 <= day d <= 31 /\
   0 <= hour d <= 23 /\ 0 <= minute d <= 59 /\ 0 <= second d <= 59 /\
   0 <= microsecond d <= 999999)%Z.

(** [d.strftime('%Y%m%d%H%M%S')], the year printed as glibc does,
    without padding. *)
Definition strftime_YmdHMS (d : datetime) : str :=
  decimal (Z.to_N (year d)) ++ pad 2 (Z.to_N (month d))
    ++ pad 2 (Z.to_N (day d)) ++ pad 2 (Z.to_N (hour d))
    ++ pad 2 (Z.to_N (minute d)) ++ pad 2 (Z.to_N (second d)).

(** [d.isoformat()]: the fraction is printed only when it is not zero. *)
Definition isoformat (d : datetime) : str :=
  pad 4 (Z.to_N (year d)) ++ lit "-" ++ pad 2 (Z.to_N (month d))
    ++ lit "-" ++ pad 2 (Z.to_N (day d)) ++ lit "T"
    ++ pad 2 (Z.to_N (hour d)) ++ lit ":" ++ pad 2 (Z.to_N (minute d))
    ++ lit ":" ++ pad 2 (Z.to_N (second d))
    ++ (if (microsecond d =? 0)%Z then []
        else lit "." ++ pad 6 (Z.to_N (microsecond d))).

(** The proleptic Gregorian calendar, as [datetime] counts it: day 1 is
    1 January of year 1. *)
Definition is_leap (y : Z) : bool :=
  ((y mod 4 =? 0) && (negb (y mod 100 =? 0) || (y mod 400 =? 0)))%Z.

Definition days_before_year (y : Z) : Z :=
  let y := (y - 1)%Z in (y * 365 + y / 4 - y / 100 + y / 400)%Z.

Definition days_in_month (y m : Z) : Z :=
  (if m =? 2 then (if is_leap y then 29 else 28)
   else if (m =? 4) || (m =? 6) || (m =? 9) || (m =? 11) then 30
   else 31)%Z.

Fixpoint days_before_month_from (y : Z) (k : nat) (m : Z) : Z :=
  match k with
  | O => 0
  | S k' =>
      (days_before_month_from y k' (m - 1) + days_in_month y (m - 1))%Z
  end.

Definition days_before_month (y m : Z) : Z :=
  days_before_month_from y (Z.to_nat (m - 1)) m.

Definition ymd2ord (y m d : Z) : Z :=
  (days_before_year y + days_before_month y m + d)%Z.

(** The month and day of the [n]-th day (from 0) of year [y]. *)
Fixpoint month_day_from (y : Z) (k : nat) (m n : Z) : Z * Z :=
  match k with
  | O => (m, (n + 1)%Z)
  | S k' =>
      if (n <? days_in_month y m)%Z then (m, (n + 1)%Z)
      else month_day_from y k' (m + 1)%Z (n - days_in_month y m)%Z
  end.

Definition ord2ymd (n : Z) : Z * Z * Z :=
  let n := (n - 1)%Z in
  let n400 := (n / 146097)%Z in
  let n := (n mod 146097)%Z in
  let n100 := (n / 36524)%Z in
  let n := (n mod 36524)%Z in
  let n4 := (n / 1461)%Z in
  let n := (n mod 1461)%Z in
  let n1 := (n / 365)%Z in
  let n := (n mod 365)%Z in
  let y := (n400 * 400 + 1 + n100 * 100 + n4 * 4 + n1)%Z in
  if ((n1 =? 4) || (n100 =? 4))%Z then ((y - 1)%Z, 12%Z, 31%Z)
  else let '(m, d) := month_day_from y 11 1 n in (y, m, d).

Definition max_ordinal : Z := 3652059.
Definition max_delta_days : Z := 999999999.

(** [d - timedelta(hours=h)] *)
Definition sub_hours (d : datetime) (h : Z) : outcome datetime :=
  if ((h / 24 <? - max_delta_days) || (max_delta_days <? h / 24))%Z
  then Raise (mk_exn OverflowError
                (if ((h / 24 <? - 2147483648) || (2147483647 <? h / 24))%Z
                 then lit "Python int too large to convert to C int"
                 else lit "days=" ++ decimal_Z (h / 24)
                        ++ lit "; must have magnitude <= 999999999"))
  else
    let secs :=
      (ymd2ord (year d) (month d) (day d) * 86400 + hour d * 3600
       + minute d * 60 + second d - h * 3600)%Z in
    let days := (secs / 86400)%Z in
    let rem := (secs mod 86400)%Z in
    if ((0 <? days) && (days <=? max_ordinal))%Z
    then
      let '(y, m, dd) := ord2ymd days in
      Return {| year := y; month := m; day := dd;
                hour := rem / 3600; minute := rem mod 3600 / 60;
                second := rem mod 60; microsecond := microsecond d |}
    else Raise (mk_exn OverflowError (lit "date value out of range")).

End Py.

Import Py.

Declare Scope py_scope.
Delimit Scope py_scope with py.
Notation "'let*' x ':=' m 'in' k" :=
  (bind m (fun x => k))
  (at level 10, x pattern, m at level 200, k at level 200) : py_scope.
Notation "x <- m ;; k" :=
  (bindM m (fun x => k))
  (at level 61, m at next level, right associativity) : py_scope.
Notation "m ;; k" :=
  (bindM m (fun _ => k))
  (at level 61, right associativity) : py_scope.
Open Scope py_scope.

(** * image_parser.py *)

Module ImageParser.

Record ImageInfo := {
  registry : str;
  repository : str;
  tag : str;
  digest : option str;
  full_name : str;
  original : str
}.

(** Truth value of [digest], which is [None] or a string. *)
Definition truthy_opt (d : option str) : bool :=
  match d with
  | Some s => negb (len s =? 0)%nat
  | None => false
  end.

(** The first step of [parse]: cut the digest off. *)
Definition split_digest (image_name : str) : outcome (str * option str) :=
  if contains (lit "@sha256:") image_name
  then
    let* (image_name, digest) :=
      unpack2 (split (lit "@sha256:") image_name) in
    Return (image_name, Some (lit "sha256:" ++ digest))
  else Return (image_name, None).

(** The second step: cut the tag off. *)
Definition split_tag (image_name : str) : outcome (str * str) :=
  if contains (lit ":") image_name
  then unpack2 (rsplit1 (lit ":") image_name)
  else Return (image_name, lit "latest").

(** The third step: registry and repository. *)
Definition split_registry (image_name : str) : outcome (str * str) :=
  let parts := split (lit "/") image_name in
  match parts with
  | [p0] => Return (lit "docker.io", lit "library/" ++ p0)
  | [p0; p1] =>
      if contains (lit ".") p0 || contains (lit ":") p0
      then Return (p0, p1)
      else Return (lit "docker.io", p0 ++ lit "/" ++ p1)
  | p0 :: rest => Return (p0, join (lit "/") rest)
  | [] => Raise (mk_exn IndexError (lit "list index out of range"))
  end.

Definition parse (image_name : str) : outcome ImageInfo :=
  let* (image_name, digest) := split_digest image_name in
  let* (image_name, tag) := split_tag image_name in
  let* (registry, repository) := split_registry image_name in
  let full_name :=
    match digest with
    | Some d =>
        if truthy_opt digest
        then registry ++ lit "/" ++ repository ++ lit "@" ++ d
        else registry ++ lit "/" ++ repository ++ lit ":" ++ tag
    | None => registry ++ lit "/" ++ repository ++ lit ":" ++ tag
    end in
  Return {| registry := registry;
            repository := repository;
            tag := tag;
            digest := digest;
            full_name := full_name;
            original :=
              match digest with
              | Some d =>
                  if truthy_opt digest then image_name ++ lit "@" ++ d
                  else image_name
              | None => image_name
              end |}.

End ImageParser.

(** * qualys_scanner_cloudrun.py *)

Module QScannerCloudRun.

Section Scanner.
Context {U : UnicodeData} {R : Runtime}.

(** ** [_generate_job_name]

    [now] is what [datetime.utcnow()] returns at the call. *)
Definition max_length : nat := 50.

Definition _generate_job_name (now : datetime)
    (registry repository tag : str) : str :=
  let timestamp := strftime_YmdHMS now in
  let base_name :=
    lower (lit "qscanner-" ++ replace (lit "/") (lit "-") repository
             ++ lit "-" ++ tag) in
  let base_name :=
    map (fun c => if isalnum c || (c =? chr "-")%N then c else chr "-")
        base_name in
  let base_name :=
    if (max_length <? len base_name)%nat
    then firstn max_length base_name
    else base_name in
  base_name ++ lit "-" ++ timestamp.

(** ** [_parse_qscanner_output]

    The logging calls have no part in the result and are left out, here
    and in the three functions that follow. *)
Definition _parse_qscanner_output (output : str) : outcome value :=
  match json_loads output with
  | Return data => Return data
  | Raise e =>
      if isinstance_exc e JSONDecodeError
      then Return (VDict [(lit "status", VStr (lit "PARSE_ERROR"));
                          (lit "raw_output", VStr output);
                          (lit "error", VStr (exc_msg e))])
      else Raise e
  end.

(** ** [_normalize_severity] *)
Definition severity_map : list (str * str) :=
  [(lit "5", lit "CRITICAL");
   (lit "4", lit "HIGH");
   (lit "3", lit "MEDIUM");
   (lit "2", lit "LOW");
   (lit "1", lit "INFORMATIONAL")].

Definition _normalize_severity (severity : value) : str :=
  let severity := upper (py_str severity) in
  match lookup severity severity_map with
  | Some bucket => bucket
  | None =>
      if contains (lit "CRIT") severity then lit "CRITICAL"
      else if contains (lit "HIGH") severity then lit "HIGH"
      else if contains (lit "MED") severity then lit "MEDIUM"
      else if contains (lit "LOW") severity then lit "LOW"
      else if contains (lit "INFO") severity then lit "INFORMATIONAL"
      else lit "MEDIUM"
  end.

(** ** [_parse_vulnerabilities] *)

(** The dictionary [vuln_summary]: its seven keys are fixed when it is
    created and none is added later. *)
Record vuln_summary := {
  CRITICAL : Z;
  HIGH : Z;
  MEDIUM : Z;
  LOW : Z;
  INFORMATIONAL : Z;
  total : Z;
  details : list value
}.

Definition empty_summary : vuln_summary :=
  {| CRITICAL := 0; HIGH := 0; MEDIUM := 0; LOW := 0; INFORMATIONAL := 0;
     total := 0; details := [] |}.

(** [if severity in vuln_summary: vuln_summary[severity] += 1] *)
Definition bump (severity : str) (s : vuln_summary)
  : outcome vuln_summary :=
  if str_eqb severity (lit "CRITICAL") then
    Return {| CRITICAL := CRITICAL s + 1; HIGH := HIGH s;
              MEDIUM := MEDIUM s; LOW := LOW s;
              INFORMATIONAL := INFORMATIONAL s; total := total s;
              details := details s |}
  else if str_eqb severity (lit "HIGH") then
    Return {| CRITICAL := CRITICAL s; HIGH := HIGH s + 1;
              MEDIUM := MEDIUM s; LOW := LOW s;
              INFORMATIONAL := INFORMATIONAL s; total := total s;
              details := details s |}
  else if str_eqb severity (lit "MEDIUM") then
    Return {| CRITICAL := CRITICAL s; HIGH := HIGH s;
              MEDIUM := MEDIUM s + 1; LOW := LOW s;
              INFORMATIONAL := INFORMATIONAL s; total := total s;
              details := details s |}
  else if str_eqb severity (lit "LOW") then
    Return {| CRITICAL := CRITICAL s; HIGH := HIGH s;
              MEDIUM := MEDIUM s; LOW := LOW s + 1;
              INFORMATIONAL := INFORMATIONAL s; total := total s;
              details := details s |}
  else if str_eqb severity (lit "INFORMATIONAL") then
    Return {| CRITICAL := CRITICAL s; HIGH := HIGH s;
              MEDIUM := MEDIUM s; LOW := LOW s;
              INFORMATIONAL := INFORMATIONAL s + 1; total := total s;
              details := details s |}
  else if str_eqb severity (lit "total") then
    Return {| CRITICAL := CRITICAL s; HIGH := HIGH s;
              MEDIUM := MEDIUM s; LOW := LOW s;
              INFORMATIONAL := INFORMATIONAL s; total := total s + 1;
              details := details s |}
  else if str_eqb severity (lit "details") then
    Raise (mk_exn TypeError (lit "'int' object is not iterable"))
  else Return s.

(** [vuln.get(k1) or vuln.get(k2)] *)
Definition get_or (vuln : value) (k1 k2 : str) : outcome value :=
  let* a := get vuln k1 VNone in
  if truthy a then Return a else get vuln k2 VNone.

(** [vuln.get('package', {}).get(k1) if isinstance(vuln.get('package'),
    dict) else vuln.get(k2)] *)
Definition package_field (vuln : value) (k1 k2 : str) : outcome value :=
  let* p := get vuln (lit "package") VNone in
  if is_dict p
  then let* p := get vuln (lit "package") (VDict []) in get p k1 VNone
  else get vuln k2 VNone.

(** One turn of the loop over the findings. *)
Definition add_finding (s : vuln_summary) (vuln : value)
  : outcome vuln_summary :=
  let* raw := get vuln (lit "severity") (VStr (lit "UNKNOWN")) in
  let severity := _normalize_severity raw in
  let* s := bump severity s in
  let total' := (total s + 1)%Z in
  let* qid := get_or vuln (lit "qid") (lit "id") in
  let* cve := get_or vuln (lit "cve") (lit "cveId") in
  let* title := get_or vuln (lit "title") (lit "name") in
  let* package := package_field vuln (lit "name") (lit "packageName") in
  let* version :=
    package_field vuln (lit "version") (lit "packageVersion") in
  let* fixed_version := get_or vuln (lit "fixedVersion") (lit "fix") in
  Return {| CRITICAL := CRITICAL s; HIGH := HIGH s; MEDIUM := MEDIUM s;
            LOW := LOW s; INFORMATIONAL := INFORMATIONAL s;
            total := total';
            details :=
              details s ++
              [VDict [(lit "qid", qid);
                      (lit "cve", cve);
                      (lit "severity", VStr severity);
                      (lit "title", title);
                      (lit "package", package);
                      (lit "version", version);
                      (lit "fixed_version", fixed_version)]] |}.

Fixpoint for_each {A B} (body : B -> A -> outcome B) (items : list A)
    (acc : B) : outcome B :=
  match items with
  | [] => Return acc
  | x :: rest => let* acc := body acc x in for_each body rest acc
  end.

(** Where the list of findings is: at the top, or under ["results"]. *)
Definition find_section (key : str) (scan_results : value)
  : outcome value :=
  let* top := py_in key scan_results in
  if top then getitem scan_results key
  else
    let* has_results := py_in (lit "results") scan_results in
    let* nested :=
      if has_results
      then let* results := getitem scan_results (lit "results") in
           py_in key results
      else Return false in
    if nested
    then let* results := getitem scan_results (lit "results") in
         getitem results key
    else Return (VList []).

Definition _parse_vulnerabilities (scan_results : value)
  : outcome vuln_summary :=
  let* vulnerabilities :=
    find_section (lit "vulnerabilities") scan_results in
  let* findings := iter vulnerabilities in
  for_each add_finding findings empty_summary.

(** ** [_parse_compliance] *)

(** The dictionary [compliance], with its four keys. *)
Record compliance_summary := {
  passed : Z;
  failed : Z;
  checks_total : Z;
  checks : list value
}.

Definition empty_compliance : compliance_summary :=
  {| passed := 0; failed := 0; checks_total := 0; checks := [] |}.

(** [check.get('status', '').upper()] *)
Definition check_status_text (check : value) : outcome str :=
  let* status := get check (lit "status") (VStr []) in
  match status with
  | VStr s => Return (upper s)
  | _ =>
      Raise (mk_exn AttributeError
               (lit "'" ++ type_name status
                  ++ lit "' object has no attribute 'upper'"))
  end.

Definition add_check (c : compliance_summary) (check : value)
  : outcome compliance_summary :=
  let* status := check_status_text check in
  let total' := (checks_total c + 1)%Z in
  let passed' :=
    if str_eqb status (lit "PASS") || str_eqb status (lit "PASSED")
    then (passed c + 1)%Z else passed c in
  let failed' :=
    if str_eqb status (lit "PASS") || str_eqb status (lit "PASSED")
    then failed c
    else if str_eqb status (lit "FAIL") || str_eqb status (lit "FAILED")
    then (failed c + 1)%Z else failed c in
  let* id := get_or check (lit "id") (lit "checkId") in
  let* title := get_or check (lit "title") (lit "name") in
  let* description := get check (lit "description") VNone in
  Return {| passed := passed'; failed := failed';
            checks_total := total';
            checks :=
              checks c ++
              [VDict [(lit "id", id);
                      (lit "title", title);
                      (lit "status", VStr status);
                      (lit "description", description)]] |}.

Definition _parse_compliance (scan_results : value)
  : outcome compliance_summary :=
  let* compliance_checks := find_section (lit "compliance") scan_results in
  let* items := iter compliance_checks in
  for_each add_check items empty_compliance.

(** ** [scan_image] *)

(** The two summaries as the dictionaries they are. *)
Definition summary_value (s : vuln_summary) : value :=
  VDict [(lit "CRITICAL", VInt (CRITICAL s));
         (lit "HIGH", VInt (HIGH s));
         (lit "MEDIUM", VInt (MEDIUM s));
         (lit "LOW", VInt (LOW s));
         (lit "INFORMATIONAL", VInt (INFORMATIONAL s));
         (lit "total", VInt (total s));
         (lit "details", VList (details s))].

Definition compliance_value (c : compliance_summary) : value :=
  VDict [(lit "passed", VInt (passed c));
         (lit "failed", VInt (failed c));
         (lit "total", VInt (checks_total c));
         (lit "checks", VList (checks c))].

Definition option_value (o : option str) : value :=
  match o with
  | Some s => VStr s
  | None => VNone
  end.

(** ** [_build_qscanner_command]

    [qualys_pod] is [self.qualys_pod], which [__init__] reads with
    [os.environ.get]: a string, or [None].  The parts of the command are
    values for that reason. *)

(** [d.items()]: only dictionaries have the method. *)
Definition dict_items (d : value) : outcome (list (str * value)) :=
  match d with
  | VDict items => Return items
  | _ =>
      Raise (mk_exn AttributeError
               (lit "'" ++ type_name d
                  ++ lit "' object has no attribute 'items'"))
  end.

Definition _build_qscanner_command (qualys_pod : option str)
    (image_id : str) (custom_tags : value) : outcome (list value) :=
  let cmd_parts :=
    [VStr (lit "qscanner");
     VStr (lit "image");
     VStr image_id;
     VStr (lit "--pod"); option_value qualys_pod;
     VStr (lit "--output-format"); VStr (lit "json")] in
  if truthy custom_tags
  then
    let* items := dict_items custom_tags in
    Return (cmd_parts ++
            flat_map (fun kv =>
                        [VStr (lit "--tag");
                         VStr (fst kv ++ lit "=" ++ py_str (snd kv))])
                     items)
  else Return cmd_parts.

(** [sep.join(items)] on a list of values: the first item that is not a
    string makes it raise. *)
Fixpoint strings_from (i : nat) (items : list value) : outcome (list str) :=
  match items with
  | [] => Return []
  | VStr s :: rest =>
      let* pieces := strings_from (S i) rest in Return (s :: pieces)
  | v :: _ =>
      Raise (mk_exn TypeError
               (lit "sequence item " ++ decimal (N.of_nat i)
                  ++ lit ": expected str instance, " ++ type_name v
                  ++ lit " found"))
  end.

Definition join_values (sep : str) (items : list value) : outcome str :=
  let* pieces := strings_from 0 items in Return (join sep pieces).

(** [' '.join(command)], the one argument [_run_qscanner_job] hands to
    [/bin/sh -c] in the container. *)
Definition container_args (qualys_pod : option str) (image_id : str)
    (custom_tags : value) : outcome str :=
  let* command := _build_qscanner_command qualys_pod image_id custom_tags in
  join_values (lit " ") command.

Section ScanImage.
(** The outside of [scan_image]: the clock, the log, and the two methods
    that talk to Cloud Run.  [_run_qscanner_job] creates and runs the job,
    waits for it with [_wait_for_execution_completion] and returns its
    logs; [_delete_job] catches the API errors of the deletion itself. *)
Variable W : Type.
Variable utcnow : M W datetime.
Variable logging : level -> str -> M W unit.
Variable _run_qscanner_job : str -> str -> value -> M W str.
Variable _delete_job : str -> M W unit.

Definition scan_image (registry repository tag : str)
    (digest : option str) (custom_tags : value) : M W value :=
  let image_id :=
    match digest with
    | Some d =>
        if negb (len d =? 0)%nat
        then registry ++ lit "/" ++ repository ++ lit "@" ++ d
        else registry ++ lit "/" ++ repository ++ lit ":" ++ tag
    | None => registry ++ lit "/" ++ repository ++ lit ":" ++ tag
    end in
  logging INFO (lit "Scanning image with qscanner Cloud Run: " ++ image_id) ;;
  now <- utcnow ;;
  let job_name := _generate_job_name now registry repository tag in
  try_finally
    (try_except
       (scan_output <- _run_qscanner_job image_id job_name custom_tags ;;
        scan_results <- lift (_parse_qscanner_output scan_output) ;;
        scan_id <-
          match scan_results with
          | VDict _ =>
              now <- utcnow ;;
              lift (get scan_results (lit "scanId")
                      (VStr (strftime_YmdHMS now)))
          | _ => lift (get scan_results (lit "scanId") VNone)
          end ;;
        vulnerabilities <- lift (_parse_vulnerabilities scan_results) ;;
        compliance <- lift (_parse_compliance scan_results) ;;
        now <- utcnow ;;
        ret (VDict
               [(lit "scan_id", scan_id);
                (lit "status", VStr (lit "COMPLETED"));
                (lit "image", VStr image_id);
                (lit "vulnerabilities", summary_value vulnerabilities);
                (lit "compliance", compliance_value compliance);
                (lit "metadata",
                 VDict [(lit "registry", VStr registry);
                        (lit "repository", VStr repository);
                        (lit "tag", VStr tag);
                        (lit "digest", option_value digest);
                        (lit "scan_timestamp", VStr (isoformat now));
                        (lit "scanner", VStr (lit "qscanner-cloudrun"));
                        (lit "job_name", VStr job_name);
                        (lit "raw_output", scan_results)])]))
       Exception_
       (fun e =>
          logging ERROR (lit "Error scanning image " ++ image_id ++ lit ": "
                           ++ exc_msg e) ;;
          raise e))
    (try_except (_delete_job job_name) Exception_
       (fun e =>
          logging WARNING (lit "Failed to delete job " ++ job_name
                             ++ lit ": " ++ exc_msg e))).
End ScanImage.

End Scanner.

(** ** [_wait_for_execution_completion] *)

(** The fields of an execution the loop reads. *)
Record execution := {
  completion_time : option datetime;
  succeeded_count : Z;
  failed_count : Z
}.

(** The Cloud Run side of the loop: what the [n]-th call of
    [get_execution] answers and how long it takes, and by how much the
    [time.sleep] after it oversleeps.  Times are in seconds. *)
Record executions_client := {
  reply : nat -> outcome execution;
  latency : nat -> Q;
  oversleep : nat -> Q
}.

Record world := {
  now : Q;                      (* what [time.time()] returns *)
  polls : nat;                  (* calls of [get_execution] so far *)
  log : list (level * str)      (* newest first *)
}.

Definition logging (l : level) (msg : str) : M world unit :=
  fun w =>
    (Return tt, {| now := now w; polls := polls w; log := (l, msg) :: log w |}).

Definition time_time : M world Q := fun w => (Return (now w), w).

Definition get_execution (svc : executions_client) : M world execution :=
  fun w =>
    (reply svc (polls w),
     {| now := (now w + latency svc (polls w))%Q;
        polls := S (polls w);
        log := log w |}).

Definition sleep (svc : executions_client) (secs : Z) : M world unit :=
  fun w =>
    if (secs <? 0)%Z
    then (Raise (mk_exn ValueError (lit "sleep length must be non-negative")),
          w)
    else (Return tt,
          {| now := (now w + inject_Z secs + oversleep svc (polls w))%Q;
             polls := polls w;
             log := log w |}).

(** How one turn of the loop ends. *)
Inductive flow := Next | Done.

Section Wait.
Variable svc : executions_client.
Variable scan_timeout : Z.
Variable execution_name : str.
Variable poll_interval : Z.

(** The [try] statement inside the loop. *)
Definition check_status : M world flow :=
  try_except
    (execution <- get_execution svc ;;
     match completion_time execution with
     | Some _ =>
         logging INFO (lit "Execution completed") ;;
         if (0 <? succeeded_count execution)%Z then
           logging INFO (lit "Execution succeeded") ;; ret Done
         else if (0 <? failed_count execution)%Z then
           logging WARNING (lit "Execution had failures, checking exit codes") ;;
           ret Done
         else raise (mk_exn Exception_ (lit "Execution did not succeed"))
     | None => sleep svc poll_interval ;; ret Next
     end)
    GoogleAPIError
    (fun e =>
       logging ERROR (lit "Error checking execution status: " ++ exc_msg e) ;;
       sleep svc poll_interval ;;
       ret Next).

Definition timed_out : exn :=
  mk_exn TimeoutError
    (lit "Execution " ++ execution_name ++ lit " timed out after "
       ++ decimal_Z scan_timeout ++ lit " seconds").

(** [while True]: [None] when the fuel runs out before the loop ends. *)
Fixpoint poll_loop (fuel : nat) (start_time : Q) (w : world)
  : option (outcome unit * world) :=
  match fuel with
  | O => None
  | S fuel' =>
      let elapsed := (now w - start_time)%Q in
      if negb (Qle_bool elapsed (inject_Z scan_timeout))
      then Some (Raise timed_out, w)
      else
        match check_status w with
        | (Return Done, w') => Some (Return tt, w')
        | (Return Next, w') => poll_loop fuel' start_time w'
        | (Raise e, w') => Some (Raise e, w')
        end
  end.

Definition _wait_for_execution_completion (fuel : nat) (w : world)
  : option (outcome unit * world) :=
  let start_time := now w in
  match logging INFO (lit "Waiting for execution " ++ execution_name
                        ++ lit " to complete...") w with
  | (_, w') => poll_loop fuel start_time w'
  end.
End Wait.

(** The default of the [poll_interval] argument. *)
Definition default_poll_interval : Z := 10.

Section Init.
Context {R : Runtime}.

(** [os.environ.get(name, default)] *)
Definition environ_get (var : option str) (default : str) : str :=
  match var with
  | Some s => s
  | None => default
  end.

(** [self.scan_timeout], as [__init__] sets it from [SCAN_TIMEOUT]. *)
Definition init_scan_timeout (SCAN_TIMEOUT : option str) : outcome Z :=
  py_int (environ_get SCAN_TIMEOUT (lit "1800")).
End Init.

End QScannerCloudRun.

(** * The storage services

    What [storage_handler.py] and [main.py] see of the outside: the clock,
    the environment, the bucket, the metadata collection, the alert topic
    and the log.  The clock and the failures of the services are scripted:
    the [n]-th reading of the clock returns [clock n], and the [n]-th call
    of a service fails with [e] when [fault n = Some e]. *)

Module Cloud.

Record document := {
  doc_id : value;
  fields : list (str * value)
}.

Record world := {
  environ : list (str * str);
  clock : nat -> datetime;
  ticks : nat;
  fault : nat -> option exn;
  calls : nat;
  blobs : list (str * str);
  documents : list document;
  published : list (str * str);
  log : list (level * str)
}.

Definition with_log (w : world) (l : list (level * str)) : world :=
  {| environ := environ w; clock := clock w; ticks := ticks w;
     fault := fault w; calls := calls w; blobs := blobs w;
     documents := documents w; published := published w; log := l |}.

(** [logging.<level>(msg)] *)
Definition logging (l : level) (msg : str) : M world unit :=
  fun w => (Return tt, with_log w ((l, msg) :: log w)).

(** [datetime.utcnow()] *)
Definition utcnow : M world datetime :=
  fun w =>
    (Return (clock w (ticks w)),
     {| environ := environ w; clock := clock w; ticks := S (ticks w);
        fault := fault w; calls := calls w; blobs := blobs w;
        documents := documents w; published := published w;
        log := log w |}).

(** [os.environ.get(name)] *)
Definition getenv (name : str) : M world (option str) :=
  fun w => (Return (lookup name (environ w)), w).

(** One call of a service: it fails as the script says, or has the effect
    [effect] and returns [result]. *)
Definition service_call {A} (result : world -> A)
    (effect : world -> world) : M world A :=
  fun w =>
    let w' :=
      {| environ := environ w; clock := clock w; ticks := ticks w;
         fault := fault w; calls := S (calls w); blobs := blobs w;
         documents := documents w; published := published w;
         log := log w |} in
    match fault w (calls w) with
    | Some e => (Raise e, w')
    | None => (Return (result w'), effect w')
    end.

(** [bucket.blob(name).upload_from_string(content)] *)
Definition upload_from_string (name content : str) : M world unit :=
  service_call (fun _ => tt)
    (fun w =>
       {| environ := environ w; clock := clock w; ticks := ticks w;
          fault := fault w; calls := calls w;
          blobs := store name content (blobs w);
          documents := documents w; published := published w;
          log := log w |}).

Definition value_eqb_str (v : value) (s : str) : bool :=
  match v with
  | VStr t => str_eqb t s
  | _ => false
  end.

Definition field_eq (name value : str) (d : document) : bool :=
  match lookup name (fields d) with
  | Some v => value_eqb_str v value
  | None => false
  end.

(** A range filter against a string matches string fields only. *)
Definition field_ge (name bound : str) (d : document) : bool :=
  match lookup name (fields d) with
  | Some (VStr t) => str_leb bound t
  | _ => false
  end.

(** [collection.where(f1, '==', v1).where(f2, '>=', v2).limit(n).stream()],
    read to the end. *)
Definition stream_where (f1 v1 f2 v2 : str) (limit : nat)
  : M world (list document) :=
  service_call
    (fun w =>
       firstn limit
         (filter (fun d => field_eq f1 v1 d && field_ge f2 v2 d)
                 (documents w)))
    (fun w => w).

Definition doc_id_eqb (a b : value) : bool :=
  match a, b with
  | VStr x, VStr y => str_eqb x y
  | _, _ => false
  end.

Fixpoint upsert (d : document) (docs : list document) : list document :=
  match docs with
  | [] => [d]
  | d' :: rest =>
      if doc_id_eqb (doc_id d) (doc_id d') then d :: rest
      else d' :: upsert d rest
  end.

(** [collection.document(id).set(fields)] *)
Definition document_set (id : value) (fs : list (str * value))
  : M world unit :=
  service_call (fun _ => tt)
    (fun w =>
       {| environ := environ w; clock := clock w; ticks := ticks w;
          fault := fault w; calls := calls w; blobs := blobs w;
          documents := upsert {| doc_id := id; fields := fs |} (documents w);
          published := published w; log := log w |}).

(** [publisher.publish(topic, data)] *)
Definition publish (topic data : str) : M world unit :=
  service_call (fun _ => tt)
    (fun w =>
       {| environ := environ w; clock := clock w; ticks := ticks w;
          fault := fault w; calls := calls w; blobs := blobs w;
          documents := documents w;
          published := published w ++ [(topic, data)]; log := log w |}).

End Cloud.

(** * storage_handler.py *)

Module StorageHandler.
Import Cloud.

Section Storage.
Context {U : UnicodeData} {R : Runtime}.

(** ** [_sanitize_name] *)
Definition _sanitize_name (name : str) : str :=
  let sanitized :=
    replace (lit "@") (lit "_")
      (replace (lit ":") (lit "_") (replace (lit "/") (lit "_") name)) in
  map (fun c => if isalnum c || contains [c] (lit "-_.") then c
                else chr "_")
      sanitized.

(** A string method called on a value: anything but a string has no
    such method. *)
Definition str_method (method : str) (v : value) : outcome str :=
  match v with
  | VStr s => Return s
  | _ =>
      Raise (mk_exn AttributeError
               (lit "'" ++ type_name v ++ lit "' object has no attribute '"
                  ++ method ++ lit "'"))
  end.

(** [d.get(k, default)] where computing [default] has effects: the
    method is looked up first, then the default is computed. *)
Definition get_with (d : value) (k : str) (default : M world value)
  : M world value :=
  match d with
  | VDict _ => dflt <- default ;; lift (get d k dflt)
  | _ => lift (get d k VNone)
  end.

(** ** [save_error] *)
Definition save_error (error_info : value) : M world unit :=
  try_except
    (timestamp <-
       get_with error_info (lit "timestamp")
         (now <- utcnow ;; ret (VStr (isoformat now))) ;;
     image <- lift (get error_info (lit "image") (VStr (lit "unknown"))) ;;
     name <- lift (str_method (lit "replace") image) ;;
     let blob_name :=
       lit "errors/" ++ _sanitize_name name ++ lit "/" ++ py_str timestamp
         ++ lit ".json" in
     content <- lift (json_dumps error_info) ;;
     upload_from_string blob_name content ;;
     logging INFO (lit "Saved error info to Cloud Storage: " ++ blob_name))
    Exception_
    (fun e => logging ERROR (lit "Error saving error info: " ++ exc_msg e)).

(** ** [is_recently_scanned] *)
Definition is_recently_scanned (image : str) (hours : option Z)
  : M world bool :=
  try_except
    (hours <-
       match hours with
       | Some h => ret h
       | None =>
           var <- getenv (lit "SCAN_CACHE_HOURS") ;;
           lift (py_int (match var with
                         | Some s => s
                         | None => lit "24"
                         end))
       end ;;
     now <- utcnow ;;
     cutoff_time <- lift (sub_hours now hours) ;;
     let sanitized_name := _sanitize_name image in
     results <-
       stream_where (lit "sanitized_image_name") sanitized_name
         (lit "timestamp_str") (isoformat cutoff_time) 1 ;;
     match results with
     | _ :: _ =>
         logging INFO (lit "Found recent scan for " ++ image) ;; ret true
     | [] => ret false
     end)
    Exception_
    (fun e =>
       logging WARNING (lit "Error checking recent scans: " ++ exc_msg e) ;;
       ret false).

(** ** [save_scan_result] *)

(** [result.get(outer, {}).get(inner, 0)] *)
Definition count_of (result : value) (outer inner : str) : outcome value :=
  let* d := get result outer (VDict []) in get d inner (VInt 0).

(** [firestore.SERVER_TIMESTAMP]: the server puts its own time there. *)
Definition SERVER_TIMESTAMP : value := VStr (lit "SERVER_TIMESTAMP").

Definition save_scan_result (result : value) : M world unit :=
  try_except
    (image <- lift (get result (lit "image") (VStr (lit "unknown"))) ;;
     scan_id <-
       get_with result (lit "scan_id")
         (now <- utcnow ;; ret (VStr (strftime_YmdHMS now))) ;;
     timestamp <-
       get_with result (lit "timestamp")
         (now <- utcnow ;; ret (VStr (isoformat now))) ;;
     name <- lift (str_method (lit "replace") image) ;;
     let blob_name :=
       _sanitize_name name ++ lit "/" ++ py_str scan_id ++ lit ".json" in
     content <- lift (json_dumps result) ;;
     upload_from_string blob_name content ;;
     logging INFO (lit "Saved scan result to Cloud Storage: " ++ blob_name) ;;
     status <- lift (get result (lit "status") (VStr (lit "UNKNOWN"))) ;;
     container_type <-
       lift (get result (lit "container_type") (VStr (lit "UNKNOWN"))) ;;
     vuln_critical <-
       lift (count_of result (lit "vulnerabilities") (lit "CRITICAL")) ;;
     vuln_high <-
       lift (count_of result (lit "vulnerabilities") (lit "HIGH")) ;;
     vuln_medium <-
       lift (count_of result (lit "vulnerabilities") (lit "MEDIUM")) ;;
     vuln_low <- lift (count_of result (lit "vulnerabilities") (lit "LOW")) ;;
     vuln_total <-
       lift (count_of result (lit "vulnerabilities") (lit "total")) ;;
     compliance_passed <-
       lift (count_of result (lit "compliance") (lit "passed")) ;;
     compliance_failed <-
       lift (count_of result (lit "compliance") (lit "failed")) ;;
     name' <- lift (str_method (lit "replace") image) ;;
     let metadata :=
       [(lit "image", image);
        (lit "scan_id", scan_id);
        (lit "timestamp", SERVER_TIMESTAMP);
        (lit "timestamp_str", timestamp);
        (lit "status", status);
        (lit "container_type", container_type);
        (lit "vuln_critical", vuln_critical);
        (lit "vuln_high", vuln_high);
        (lit "vuln_medium", vuln_medium);
        (lit "vuln_low", vuln_low);
        (lit "vuln_total", vuln_total);
        (lit "compliance_passed", compliance_passed);
        (lit "compliance_failed", compliance_failed);
        (lit "blob_path", VStr blob_name);
        (lit "sanitized_image_name", VStr (_sanitize_name name'))] in
     document_set scan_id metadata ;;
     logging INFO (lit "Saved scan metadata to Firestore: " ++ py_str scan_id))
    Exception_
    (fun e =>
       logging ERROR (lit "Error saving scan result: " ++ exc_msg e) ;;
       raise e).

End Storage.

End StorageHandler.

(** * main.py *)

Module Main.
Import Cloud.

(** The handler's own state: the local list [results], and the outside. *)
Record state := {
  results : list value;
  outside : world
}.

(** Code of the outside, run from the handler. *)
Definition cloud {A} (m : M world A) : M state A :=
  fun s =>
    match m (outside s) with
    | (r, w) => (r, {| results := results s; outside := w |})
    end.

(** [results.append(r)] *)
Definition append_result (r : value) : M state unit :=
  fun s => (Return tt, {| results := results s ++ [r]; outside := outside s |}).

(** ** [extract_images_from_service] *)

(** The loop over the containers.  The list [images] grows as the loop
    runs, so what was appended before a failure is still there when the
    [except] clause is reached: the loop returns the list and the
    exception that stopped it, if any. *)
Fixpoint collect_images (containers images : list value)
  : list value * option exn :=
  match containers with
  | [] => (images, None)
  | container :: rest =>
      match get container (lit "image") VNone with
      | Return image =>
          collect_images rest
            (if truthy image then images ++ [image] else images)
      | Raise e => (images, Some e)
      end
  end.

Definition extract_images_from_service (service_request : value)
  : M world (list value) :=
  let '(images, failure) :=
    match (let* template := get service_request (lit "template") (VDict []) in
           let* containers := get template (lit "containers") (VList []) in
           iter containers) with
    | Return containers => collect_images containers []
    | Raise e => ([], Some e)
    end in
  match failure with
  | Some e =>
      logging ERROR (lit "Error extracting images: " ++ exc_msg e) ;;
      ret images
  | None => ret images
  end.

Section Handler.
Context {U : UnicodeData} {R : Runtime}.

(** [scanner.scan_image(registry, repository, tag, digest, custom_tags)]:
    to the handler, an operation on the outside that returns a scan
    result or raises. *)
Variable scan_image :
  str -> str -> str -> option str -> value -> M world value.

(** What the handler took from the event before the loop. *)
Variable project_id service_name location event_id : value.

(** [ImageParser.parse(image)] on whatever the event lists as an image:
    the string operations of [parse] fail on anything but a string. *)
Definition parse_value (image : value) : outcome ImageParser.ImageInfo :=
  match image with
  | VStr s => ImageParser.parse s
  | _ =>
      let* has_digest := py_in (lit "@sha256:") image in
      let* has_tag :=
        if has_digest then Return false else py_in (lit ":") image in
      let* s :=
        StorageHandler.str_method
          (if has_tag then lit "rsplit" else lit "split") image in
      ImageParser.parse s
  end.

(** [x > 0] *)
Definition gt_zero (x : value) : outcome bool :=
  match x with
  | VInt z => Return (0 <? z)%Z
  | VBool b => Return b
  | VFloat r =>
      Return (negb (startswith (lit "-") r || str_eqb r (lit "0.0")
                      || str_eqb r (lit "nan")))
  | _ =>
      Raise (mk_exn TypeError
               (lit "'>' not supported between instances of '"
                  ++ type_name x ++ lit "' and 'int'"))
  end.

(** ** [should_alert] *)
Definition should_alert (scan_result : value) : M world bool :=
  var <- getenv (lit "NOTIFY_SEVERITY_THRESHOLD") ;;
  let notify_threshold :=
    match var with Some s => s | None => lit "HIGH" end in
  vulnerabilities <-
    lift (get scan_result (lit "vulnerabilities") (VDict [])) ;;
  critical_count <- lift (get vulnerabilities (lit "CRITICAL") (VInt 0)) ;;
  high_count <- lift (get vulnerabilities (lit "HIGH") (VInt 0)) ;;
  if str_eqb notify_threshold (lit "CRITICAL")
  then lift (gt_zero critical_count)
  else if str_eqb notify_threshold (lit "HIGH")
  then
    critical <- lift (gt_zero critical_count) ;;
    if critical then ret true else lift (gt_zero high_count)
  else ret false.

(** ** [send_alert] *)
Definition send_alert (scan_result : value) : M world unit :=
  try_except
    (image <- lift (getitem scan_result (lit "image")) ;;
     service <- lift (get scan_result (lit "service_name") VNone) ;;
     vulnerabilities <-
       lift (getitem scan_result (lit "vulnerabilities")) ;;
     logging WARNING
       (lit "SECURITY ALERT: High severity vulnerabilities found in "
          ++ py_str image ++ lit ". Service: " ++ py_str service
          ++ lit " Vulnerabilities: " ++ py_str vulnerabilities) ;;
     notification_topic <- getenv (lit "NOTIFICATION_TOPIC") ;;
     match notification_topic with
     | Some topic =>
         if negb (len topic =? 0)%nat
         then
           image <- lift (getitem scan_result (lit "image")) ;;
           service <- lift (get scan_result (lit "service_name") VNone) ;;
           vulnerabilities <-
             lift (getitem scan_result (lit "vulnerabilities")) ;;
           timestamp <- lift (getitem scan_result (lit "timestamp")) ;;
           message_data <-
             lift (json_dumps
                     (VDict [(lit "severity", VStr (lit "HIGH"));
                             (lit "image", image);
                             (lit "service", service);
                             (lit "vulnerabilities", vulnerabilities);
                             (lit "timestamp", timestamp)])) ;;
           publish topic message_data ;;
           logging INFO (lit "Alert published to " ++ topic)
         else ret tt
     | None => ret tt
     end)
    Exception_
    (fun e => logging ERROR (lit "Error sending alert: " ++ exc_msg e)).

(** ** The loop of [process_cloudrun_event] *)

(** The body of the [try] statement.  It ends early, at [continue], when
    the image was scanned recently. *)
Definition scan_one (image : value) : M state unit :=
  image_info <- lift (parse_value image) ;;
  recent <-
    cloud (StorageHandler.is_recently_scanned
             (ImageParser.full_name image_info) None) ;;
  if recent
  then
    cloud (logging INFO (lit "Image " ++ py_str image
                           ++ lit " was recently scanned, skipping"))
  else
    let custom_tags :=
      VDict [(lit "container_type", VStr (lit "cloudrun"));
             (lit "gcp_project", project_id);
             (lit "service_name", service_name);
             (lit "location", location);
             (lit "event_id", event_id)] in
    scan_result <-
      cloud (scan_image (ImageParser.registry image_info)
               (ImageParser.repository image_info)
               (ImageParser.tag image_info)
               (ImageParser.digest image_info) custom_tags) ;;
    now <- cloud utcnow ;;
    scan_id <- lift (get scan_result (lit "scan_id") VNone) ;;
    status <- lift (get scan_result (lit "status") VNone) ;;
    vulnerabilities <-
      lift (get scan_result (lit "vulnerabilities") (VDict [])) ;;
    compliance <- lift (get scan_result (lit "compliance") (VDict [])) ;;
    let result_record :=
      VDict [(lit "timestamp", VStr (isoformat now));
             (lit "container_type", VStr (lit "cloudrun"));
             (lit "image", image);
             (lit "project_id", project_id);
             (lit "service_name", service_name);
             (lit "location", location);
             (lit "scan_id", scan_id);
             (lit "status", status);
             (lit "vulnerabilities", vulnerabilities);
             (lit "compliance", compliance)] in
    cloud (StorageHandler.save_scan_result result_record) ;;
    append_result result_record ;;
    alert <- cloud (should_alert result_record) ;;
    if alert then cloud (send_alert result_record) else ret tt.

(** The record the handler passes to [save_error]. *)
Definition error_record (now : datetime) (image : value) (img_error : exn)
  : value :=
  VDict [(lit "timestamp", VStr (isoformat now));
         (lit "image", image);
         (lit "error", VStr (exc_msg img_error));
         (lit "service_name", service_name);
         (lit "project_id", project_id)].

(** The [except Exception as img_error] clause. *)
Definition on_image_error (image : value) (img_error : exn)
  : M state unit :=
  cloud (logging ERROR (lit "Error processing image " ++ py_str image
                          ++ lit ": " ++ exc_msg img_error)) ;;
  now <- cloud utcnow ;;
  cloud (StorageHandler.save_error (error_record now image img_error)).

(** One turn of the loop. *)
Definition process_image (image : value) : M state unit :=
  cloud (logging INFO (lit "Processing image: " ++ py_str image)) ;;
  try_except (scan_one image) Exception_ (on_image_error image).

(** [for image in images: ...] *)
Fixpoint for_images (images : list value) : M state unit :=
  match images with
  | [] => ret tt
  | image :: rest => process_image image ;; for_images rest
  end.

(** Lines 74 to 137 of [process_cloudrun_event]: the loop and the
    closing log line. *)
Definition process_images (images : list value) : M world (list value) :=
  fun w =>
    match for_images images {| results := []; outside := w |} with
    | (Return _, s) =>
        match logging INFO
                (lit "Successfully processed "
                   ++ decimal (N.of_nat (List.length (results s)))
                   ++ lit " images") (outside s) with
        | (_, w') => (Return (results s), w')
        end
    | (Raise e, s) => (Raise e, outside s)
    end.

End Handler.

(** ** [process_cloudrun_event] *)

Section Event.
Context {U : UnicodeData} {R : Runtime}.

(** What the handler uses of the libraries and of the two classes it
    instantiates: [base64.b64decode(data).decode('utf-8')]; the
    constructor of [QScannerCloudRun] and the [scan_image] of the object
    it returns; the constructor of [StorageHandler], whose methods are
    those of [storage_handler.py] above. *)
Variable b64decode_utf8 : value -> outcome str.
Variable Scanner : Type.
Variable new_scanner : value -> M world Scanner.
Variable scan_image :
  Scanner -> str -> str -> str -> option str -> value -> M world value.
Variable new_storage : str -> str -> M world unit.

(** [context.event_id] *)
Variable event_id : value.

(** [os.environ[name]] *)
Definition environ_item (name : str) : M world str :=
  var <- getenv name ;;
  match var with
  | Some s => ret s
  | None => raise (mk_exn KeyError (lit "'" ++ name ++ lit "'"))
  end.

(** [resource.get('labels', {}).get(k)] *)
Definition label (resource : value) (k : str) : outcome value :=
  let* labels := get resource (lit "labels") (VDict []) in
  get labels k VNone.

Definition CreateService : str :=
  lit "google.cloud.run.v2.Services.CreateService".

Definition UpdateService : str :=
  lit "google.cloud.run.v2.Services.UpdateService".

(** Lines 38 to 137: from the decoded audit log on. *)
Definition process_audit_log (audit_log : value) : M world unit :=
  payload <- lift (get audit_log (lit "protoPayload") (VDict [])) ;;
  method <- lift (get payload (lit "methodName") VNone) ;;
  logging INFO (lit "Audit log method: " ++ py_str method) ;;
  payload <- lift (get audit_log (lit "protoPayload") (VDict [])) ;;
  method_name <- lift (get payload (lit "methodName") (VStr [])) ;;
  created <- lift (py_in CreateService method_name) ;;
  wanted <-
    (if created then ret true else lift (py_in UpdateService method_name)) ;;
  if negb wanted
  then
    logging INFO (lit "Ignoring non-Cloud Run service event: "
                    ++ py_str method_name)
  else
    resource <- lift (get audit_log (lit "resource") (VDict [])) ;;
    project_id <- lift (label resource (lit "project_id")) ;;
    service_name <- lift (label resource (lit "service_name")) ;;
    location <- lift (label resource (lit "location")) ;;
    logging INFO (lit "Cloud Run service: " ++ py_str service_name
                    ++ lit " in " ++ py_str location) ;;
    payload <- lift (get audit_log (lit "protoPayload") (VDict [])) ;;
    request <- lift (get payload (lit "request") (VDict [])) ;;
    images <- extract_images_from_service request ;;
    match images with
    | [] =>
        logging WARNING (lit "No container images found in service definition")
    | _ :: _ =>
        logging INFO (lit "Found "
                        ++ decimal (N.of_nat (List.length images))
                        ++ lit " container images to scan") ;;
        scanner <- new_scanner project_id ;;
        gcp_project_id <- environ_item (lit "GCP_PROJECT_ID") ;;
        bucket_name <- environ_item (lit "SCAN_RESULTS_BUCKET") ;;
        new_storage gcp_project_id bucket_name ;;
        process_images (scan_image scanner) project_id service_name location
          event_id images ;;
        ret tt
    end.

Definition process_cloudrun_event (event : value) : M world unit :=
  logging INFO (lit "Processing Cloud Run event: " ++ py_str event_id) ;;
  try_except
    (has_data <- lift (py_in (lit "data") event) ;;
     if has_data
     then
       data <- lift (getitem event (lit "data")) ;;
       message_data <- lift (b64decode_utf8 data) ;;
       audit_log <- lift (json_loads message_data) ;;
       process_audit_log audit_log
     else logging WARNING (lit "No data in Pub/Sub message"))
    Exception_
    (fun e =>
       logging ERROR (lit "Error processing event: " ++ exc_msg e) ;;
       raise e).

End Event.

End Main.

(** * Examples to run the definitions on *)

Module Examples.

Definition at_second (n : nat) : datetime :=
  {| year := 2024; month := 11; day := 2;
     hour := 3; minute := 4; second := Z.of_nat n; microsecond := 0 |}.

(** A world in which every service answers, with one metadata record. *)
Definition quiet_world : Cloud.world :=
  {| Cloud.environ := [];
     Cloud.clock := at_second;
     Cloud.ticks := 0;
     Cloud.fault := fun _ => None;
     Cloud.calls := 0;
     Cloud.blobs := [];
     Cloud.documents :=
       [{| Cloud.doc_id := VStr (lit "20241102010000");
           Cloud.fields :=
             [(lit "sanitized_image_name",
               VStr (lit "docker.io_library_nginx_latest"));
              (lit "timestamp_str", VStr (lit "2024-11-02T01:00:00"))] |}];
     Cloud.published := [];
     Cloud.log := [] |}.

(** A scanner whose every scan times out. *)
Definition failing_scan (registry repository tag : str)
    (digest : option str) (custom_tags : value) : M Cloud.world value :=
  raise (mk_exn TimeoutError
           (lit "Execution e1 timed out after 1800 seconds")).

(** A scanner whose every scan succeeds without findings. *)
Definition clean_scan (registry repository tag : str)
    (digest : option str) (custom_tags : value) : M Cloud.world value :=
  ret (VDict [(lit "scan_id", VStr (lit "20241102030401"));
              (lit "status", VStr (lit "COMPLETED"));
              (lit "vulnerabilities", VDict []);
              (lit "compliance", VDict [])]).

(** An execution that never completes: every other status check fails. *)
Definition stuck : QScannerCloudRun.executions_client :=
  {| QScannerCloudRun.reply := fun n =>
       if Nat.even n
       then Return {| QScannerCloudRun.completion_time := None;
                      QScannerCloudRun.succeeded_count := 0;
                      QScannerCloudRun.failed_count := 0 |}
       else Raise (mk_exn GoogleAPIError (lit "503 Service Unavailable"));
     QScannerCloudRun.latency := fun _ => (1 # 2)%Q;
     QScannerCloudRun.oversleep := fun _ => 0%Q |}.

Definition start_world : QScannerCloudRun.world :=
  {| QScannerCloudRun.now := 1000%Q;
     QScannerCloudRun.polls := 0;
     QScannerCloudRun.log := [] |}.

End Examples.

(** * The vocabulary of the theorems *)

Section SanitizeVocabulary.
Context {U : UnicodeData}.
Import StorageHandler.

(** What [_sanitize_name] does to one character. *)
Definition sanitize_char (c : char) : char :=
  let c := if (47 =? c)%N then 95%N else c in
  let c := if (58 =? c)%N then 95%N else c in
  let c := if (64 =? c)%N then 95%N else c in
  if isalnum c || contains [c] (lit "-_.") then c else 95%N.

(** A character the sanitizer keeps. *)
Definition kept (c : char) : Prop :=
  isalnum c = true \/ In c (lit "-_.").

End SanitizeVocabulary.

(** The five severity buckets. *)
Definition buckets : list str :=
  [lit "CRITICAL"; lit "HIGH"; lit "MEDIUM"; lit "LOW"; lit "INFORMATIONAL"].

Section SummaryVocabulary.
Import QScannerCloudRun.
Local Open Scope Z_scope.

(** The sum of the five severity counters. *)
Definition bucket_sum (s : vuln_summary) : Z :=
  CRITICAL s + HIGH s + MEDIUM s + LOW s + INFORMATIONAL s.

(** The invariant of the loop of [_parse_vulnerabilities]. *)
Definition consistent (s : vuln_summary) : Prop :=
  bucket_sum s = total s /\ Z.of_nat (List.length (details s)) = total s.

End SummaryVocabulary.

Definition digits_of_width (w : nat) (s : str) : bool :=
  (len s =? w)%nat && forallb is_ascii_digit s.

Section JobNameVocabulary.
Context {U : UnicodeData}.
Import QScannerCloudRun.

(** The characters Cloud Run allows in a job name. *)
Definition job_char (c : char) : bool :=
  is_ascii_lower c || is_ascii_digit c || (c =? 45)%N.

Definition ascii_lower (c : char) : char :=
  if is_ascii_upper c then (c + 32)%N else c.

(** The base of the name, before the timestamp is appended. *)
Definition base_name (repository tag : str) : str :=
  let b :=
    map (fun c => if isalnum c || (c =? chr "-")%N then c else chr "-")
      (lower (lit "qscanner-" ++ replace (lit "/") (lit "-") repository
                ++ lit "-" ++ tag)) in
  if (max_length <? len b)%nat then firstn max_length b else b.

End JobNameVocabulary.

Section WaitVocabulary.
Import QScannerCloudRun.
Variable svc : executions_client.
Variable scan_timeout : Z.
Variable poll_interval : Z.

(** A reply that shows no completion marker: an execution without
    completion time, or a failed status check. *)
Definition pending (r : outcome execution) : Prop :=
  match r with
  | Return e => completion_time e = None
  | Raise e => isinstance_exc e GoogleAPIError = true
  end.

(** The line the loop logs for a failed status check. *)
Definition status_error_line (e : exn) : level * str :=
  (ERROR, lit "Error checking execution status: " ++ exc_msg e).

(** The clock never runs backwards. *)
Definition monotone_clock : Prop :=
  forall k, (0 <= latency svc k)%Q /\ (0 <= oversleep svc k)%Q.

(** The time [n] sleeps take at least. *)
Fixpoint budget (n : nat) : Q :=
  match n with
  | O => 0
  | S n' => budget n' + inject_Z poll_interval
  end.

(** What is known of the world in which the loop gives up, [w'], from the
    world in which it started, [w]. *)
Record gave_up (start : Q) (n : nat) (w w' : world) : Prop := {
  elapsed_over : (inject_Z scan_timeout < now w' - start)%Q;
  polls_le : (polls w <= polls w' <= polls w + n)%nat;
  spaced : (now w + budget (polls w' - polls w) <= now w')%Q;
  log_kept : forall entry, In entry (log w) -> In entry (log w');
  failures_logged :
    forall k e, (polls w <= k < polls w')%nat -> reply svc k = Raise e ->
                In (status_error_line e) (log w')
}.

(** The turns the loop can take before the timeout. *)
Definition max_polls : nat :=
  Z.to_nat (Z.max 0 (scan_timeout / poll_interval + 1)).

End WaitVocabulary.

(** [a <= b] on datetimes: field by field, as Python compares them. *)
Definition datetime_leb (a b : datetime) : bool :=
  (if year a <? year b then true else if year b <? year a then false else
   if month a <? month b then true else if month b <? month a then false else
   if day a <? day b then true else if day b <? day a then false else
   if hour a <? hour b then true else if hour b <? hour a then false else
   if minute a <? minute b then true
   else if minute b <? minute a then false else
   if second a <? second b then true
   else if second b <? second a then false else
   microsecond a <=? microsecond b)%Z.

Section RecencyVocabulary.
Context {U : UnicodeData} {R : Runtime}.
Import Cloud StorageHandler.

(** The window of the check, in hours: the argument, or else
    [SCAN_CACHE_HOURS], or else 24. *)
Definition window (hours : option Z) (w : world) : outcome Z :=
  match hours with
  | Some h => Return h
  | None =>
      py_int (match lookup (lit "SCAN_CACHE_HOURS") (environ w) with
              | Some s => s
              | None => lit "24"
              end)
  end.

(** A metadata record of the image that is not older than [cutoff]. *)
Definition recent_record (image : str) (cutoff : datetime) (d : document)
  : Prop :=
  lookup (lit "sanitized_image_name") (fields d)
    = Some (VStr (_sanitize_name image)) /\
  exists ts,
    lookup (lit "timestamp_str") (fields d) = Some (VStr ts) /\
    str_leb (isoformat cutoff) ts = true.

(** The answer of [is_recently_scanned], in closed form. *)
Definition recently (image : str) (hours : option Z) (w : world) : bool :=
  match window hours w with
  | Return h =>
      match sub_hours (clock w (ticks w)) h with
      | Return cutoff =>
          match fault w (calls w) with
          | None =>
              existsb
                (fun d =>
                   field_eq (lit "sanitized_image_name")
                     (_sanitize_name image) d
                   && field_ge (lit "timestamp_str") (isoformat cutoff) d)
                (documents w)
          | Some _ => false
          end
      | Raise _ => false
      end
  | Raise _ => false
  end.

End RecencyVocabulary.

Section BatchVocabulary.
Context {R : Runtime}.
Import Cloud Main.

(** The world in which the handler of a failed image calls [save_error]:
    the failure is logged and the clock is read. *)
Definition after_error_log (image : value) (e : exn) (w : world) : world :=
  snd (utcnow
         (snd (logging ERROR (lit "Error processing image " ++ py_str image
                                ++ lit ": " ++ exc_msg e) w))).

(** The state in which the [try] statement of an image starts. *)
Definition announced (image : value) (s : state) : state :=
  {| results := results s;
     outside :=
       with_log (outside s)
         ((INFO, lit "Processing image: " ++ py_str image)
            :: log (outside s)) |}.

End BatchVocabulary.

Definition named_images (containers : list (list (str * value)))
  : list value :=
  flat_map (fun c => match lookup (lit "image") c with
                     | Some image => if truthy image then [image] else []
                     | None => []
                     end)
           containers.

(** What the log gains when the extraction stops at an exception. *)
Definition extraction_error_line (e : exn) : level * str :=
  (ERROR, lit "Error extracting images: " ++ exc_msg e).

Section AlertVocabulary.
Import Cloud.

(** The threshold [should_alert] reads: [NOTIFY_SEVERITY_THRESHOLD], or
    else HIGH. *)
Definition notify_threshold (w : world) : str :=
  match lookup (lit "NOTIFY_SEVERITY_THRESHOLD") (environ w) with
  | Some t => t
  | None => lit "HIGH"
  end.

End AlertVocabulary.

(** The quiet world with an alert topic configured. *)
Definition alerting_world : Cloud.world :=
  {| Cloud.environ :=
       [(lit "NOTIFICATION_TOPIC", lit "projects/p/topics/alerts")];
     Cloud.clock := Examples.at_second;
     Cloud.ticks := 0;
     Cloud.fault := fun _ => None;
     Cloud.calls := 0;
     Cloud.blobs := [];
     Cloud.documents := [];
     Cloud.published := [];
     Cloud.log := [] |}.

(** A result record with two HIGH findings. *)
Definition two_high : list (str * value) :=
  [(lit "timestamp", VStr (lit "2024-11-02T03:04:01"));
   (lit "image", VStr (lit "redis"));
   (lit "scan_id", VStr (lit "20241102030401"));
   (lit "vulnerabilities",
    QScannerCloudRun.summary_value
      {| QScannerCloudRun.CRITICAL := 0; QScannerCloudRun.HIGH := 2;
         QScannerCloudRun.MEDIUM := 0; QScannerCloudRun.LOW := 0;
         QScannerCloudRun.INFORMATIONAL := 0; QScannerCloudRun.total := 2;
         QScannerCloudRun.details := [] |})].

(** A service request with two containers, one of them without image. *)
Definition two_containers : list (list (str * value)) :=
  [[(lit "image", VStr (lit "redis"))]; [(lit "name", VStr (lit "sidecar"))]].

Section SaveVocabulary.
Context {U : UnicodeData} {R : Runtime}.
Import Cloud StorageHandler.

(** The entry [k] of a record is a dictionary, or is missing. *)
Definition dict_or_absent (k : str) (items : list (str * value)) : Prop :=
  match lookup k items with
  | Some (VDict _) | None => True
  | Some _ => False
  end.

(** The name of the blob [save_scan_result] writes. *)
Definition result_blob (name : str) (scan_id : value) : str :=
  _sanitize_name name ++ lit "/" ++ py_str scan_id ++ lit ".json".

(** The line [save_scan_result] logs before it raises again. *)
Definition save_error_line (e : exn) : level * str :=
  (ERROR, lit "Error saving scan result: " ++ exc_msg e).

End SaveVocabulary.

(** The quiet world with a bucket that is down. *)
Definition bucket_down : exn :=
  mk_exn GoogleAPIError (lit "503 Service Unavailable").

Definition no_bucket_world : Cloud.world :=
  {| Cloud.environ := [];
     Cloud.clock := Examples.at_second;
     Cloud.ticks := 0;
     Cloud.fault := fun _ => Some bucket_down;
     Cloud.calls := 0;
     Cloud.blobs := [];
     Cloud.documents := [];
     Cloud.published := [];
     Cloud.log := [] |}.

(** The quiet world with a metadata collection that is down: the first
    call of a service goes through, the later ones fail. *)
Definition no_collection_world : Cloud.world :=
  {| Cloud.environ := [];
     Cloud.clock := Examples.at_second;
     Cloud.ticks := 0;
     Cloud.fault := fun n => match n with
                             | O => None
                             | S _ => Some bucket_down
                             end;
     Cloud.calls := 0;
     Cloud.blobs := [];
     Cloud.documents := [];
     Cloud.published := [];
     Cloud.log := [] |}.

(** A job whose logs are not JSON, and a deletion that goes through. *)
Definition garbage_job (image_id job_name : str) (custom_tags : value)
  : M Cloud.world str :=
  ret (lit "qscanner: command failed").

Definition quiet_delete (job_name : str) : M Cloud.world unit := ret tt.

(** An interpreter whose [json.loads] gives up on every text with a
    [RecursionError], as Python does on a text nested too deeply; the
    class is not one the handlers single out, so [Exception] stands for
    it. *)
Definition nesting_runtime : Runtime :=
  {| repr_container := fun _ => lit "...";
     int_other := fun s =>
       Raise (mk_exn ValueError
                (lit "invalid literal for int() with base 10"));
     json_loads := fun s =>
       Raise (mk_exn Exception_
                (lit "maximum recursion depth exceeded while decoding a JSON array from a unicode string"));
     json_dumps := fun v => Return (lit "...") |}.

Section CompletionVocabulary.
Import QScannerCloudRun.

(** How the loop ends on a status report with a completion time. *)
Definition completion_outcome (ex : execution) : outcome unit :=
  if ((0 <? succeeded_count ex) || (0 <? failed_count ex))%Z
  then Return tt
  else Raise (mk_exn Exception_ (lit "Execution did not succeed")).

(** An execution that has completed with one failed task. *)
Definition failed_execution : executions_client :=
  {| reply := fun _ =>
       Return {| completion_time := Some (Examples.at_second 0);
                 succeeded_count := 0;
                 failed_count := 1 |};
     latency := fun _ => (1 # 2)%Q;
     oversleep := fun _ => 0%Q |}.

End CompletionVocabulary.

(** What [parse] puts in front of a name that has no registry. *)
Definition default_prefixes : list str :=
  [[]; lit "docker.io/"; lit "docker.io/library/"].

(** An event whose message is the empty JSON object, and the decoder's
    answer on it. *)
Definition empty_event : list (str * value) :=
  [(lit "data", VStr (lit "e30="))].

Definition decode_empty (data : value) : outcome str := Return (lit "{}").

(** * Facts about strings *)

Section StringFacts.

Lemma replace_char : forall (o n : char) (s : str),
  replace [o] [n] s = map (fun c => if (o =? c)%N then n else c) s.
Proof.
  intros o n s. unfold replace.
  induction s as [|c t IH]; simpl; [reflexivity|].
  destruct (o =? c)%N; simpl; rewrite IH; reflexivity.
Qed.

End StringFacts.

(** * storage_handler.py: name sanitization *)

Section SanitizeFacts.
Context {U : UnicodeData}.
Import StorageHandler.

Lemma sanitize_name_map : forall name,
  _sanitize_name name = map sanitize_char name.
Proof.
  intros name. unfold _sanitize_name.
  change (lit "/") with [47%N]. change (lit ":") with [58%N].
  change (lit "@") with [64%N]. change (lit "_") with [95%N].
  rewrite !replace_char, !map_map. reflexivity.
Qed.

Lemma contains_safe : forall c,
  contains [c] (lit "-_.") = true <-> In c (lit "-_.").
Proof.
  intros c. cbn.
  destruct (N.eqb_spec c 45), (N.eqb_spec c 95), (N.eqb_spec c 46);
    cbn; intuition (try discriminate; try lia).
Qed.

Lemma sanitize_char_kept : forall c, kept (sanitize_char c).
Proof.
  intros c. unfold sanitize_char.
  set (c1 := if (47 =? c)%N then 95%N else c).
  set (c2 := if (58 =? c1)%N then 95%N else c1).
  set (c3 := if (64 =? c2)%N then 95%N else c2).
  cbv zeta. unfold kept.
  destruct (isalnum c3 || contains [c3] (lit "-_.")) eqn:E.
  - apply orb_true_iff in E. destruct E as [E|E]; [left; exact E|].
    right. apply contains_safe. exact E.
  - right. cbn. auto.
Qed.

Lemma sanitize_char_fixed : forall c, kept c -> sanitize_char c = c.
Proof.
  intros c [Ha|Hs].
  - unfold sanitize_char.
    destruct (N.eqb_spec 47 c) as [<-|]; [cbv in Ha; discriminate|].
    destruct (N.eqb_spec 58 c) as [<-|]; [cbv in Ha; discriminate|].
    destruct (N.eqb_spec 64 c) as [<-|]; [cbv in Ha; discriminate|].
    cbv zeta. rewrite Ha. reflexivity.
  - cbn in Hs. destruct Hs as [<-|[<-|[<-|[]]]];
      reflexivity.
Qed.

(** C10: sanitizing a sanitized name changes nothing, because every
    character of a sanitized name is alphanumeric or one of '-', '_', '.',
    and the sanitizer keeps these. *)
Theorem sanitize_name_idempotent : forall name : str,
  _sanitize_name (_sanitize_name name) = _sanitize_name name /\
  Forall kept (_sanitize_name name) /\
  (forall c, kept c -> _sanitize_name [c] = [c]).
Proof.
  intros name. rewrite !sanitize_name_map. repeat split.
  - rewrite map_map. apply map_ext. intros c.
    apply sanitize_char_fixed, sanitize_char_kept.
  - apply Forall_forall. intros c Hc. apply in_map_iff in Hc.
    destruct Hc as [c0 [<- _]]. apply sanitize_char_kept.
  - intros c Hc. rewrite sanitize_name_map. cbn [map].
    rewrite sanitize_char_fixed by exact Hc. reflexivity.
Qed.

End SanitizeFacts.

(** * qualys_scanner_cloudrun.py: interpreting the scanner's output *)

Section InterpreterFacts.
Context {U : UnicodeData} {R : Runtime}.
Import QScannerCloudRun.

Lemma normalize_severity_bucket : forall severity : value,
  In (_normalize_severity severity) buckets.
Proof.
  intros severity. unfold _normalize_severity.
  set (s := upper (py_str severity)).
  unfold severity_map. cbn [lookup].
  repeat match goal with
         | |- context [if ?b then _ else _] => destruct b
         end; cbn; auto 10.
Qed.

Lemma normalize_bucket_fixed : forall b : str,
  In b buckets -> _normalize_severity (VStr b) = b.
Proof.
  intros b Hb. cbn in Hb.
  destruct Hb as [<-|[<-|[<-|[<-|[<-|[]]]]]]; reflexivity.
Qed.

(** A key of [severity_map] is one character long. *)
Lemma severity_map_keys : forall s b,
  lookup s severity_map = Some b -> len s = 1%nat.
Proof.
  intros s b. unfold severity_map. cbn [lookup].
  destruct s as [|c [|c' t]]; cbn; try discriminate; [reflexivity|].
  rewrite !andb_false_r. discriminate.
Qed.

Lemma contains_length : forall sub s,
  contains sub s = true -> (len sub <= len s)%nat.
Proof.
  assert (P : forall sub s, startswith sub s = true -> (len sub <= len s)%nat).
  { induction sub as [|x sub IH]; intros [|y s] H; cbn in *;
      try lia; try discriminate.
    apply andb_true_iff in H. destruct H as [_ H]. apply IH in H.
    unfold len in *. lia. }
  intros sub s. induction s as [|y s IH]; cbn; intros H.
  - rewrite orb_false_r in H. apply P in H. exact H.
  - apply orb_true_iff in H. destruct H as [H|H].
    + apply P in H. exact H.
    + apply IH in H. unfold len in *. cbn. lia.
Qed.

(** Any text in which "CRIT" occurs once upper-cased is CRITICAL. *)
Lemma normalize_severity_crit : forall severity : value,
  contains (lit "CRIT") (upper (py_str severity)) = true ->
  _normalize_severity severity = lit "CRITICAL".
Proof.
  intros severity H. unfold _normalize_severity.
  destruct (lookup (upper (py_str severity)) severity_map) eqn:E.
  - apply severity_map_keys in E. apply contains_length in H.
    rewrite E in H. cbn in H. lia.
  - rewrite H. reflexivity.
Qed.

(** C8: [_normalize_severity] is total and idempotent.  Every input lands
    in one of the five buckets; the codes 5 to 1, as numbers or as text,
    land in CRITICAL, HIGH, MEDIUM, LOW and INFORMATIONAL; an input that
    is no code and has none of the keywords lands in MEDIUM; and
    normalizing a normalized severity returns it unchanged. *)
Theorem normalize_severity_total_idempotent : forall severity : value,
  In (_normalize_severity severity) buckets /\
  _normalize_severity (VStr (_normalize_severity severity))
    = _normalize_severity severity /\
  (map _normalize_severity [VInt 5; VInt 4; VInt 3; VInt 2; VInt 1] = buckets /\
   map _normalize_severity
     [VStr (lit "5"); VStr (lit "4"); VStr (lit "3"); VStr (lit "2");
      VStr (lit "1")] = buckets /\
   map _normalize_severity
     [VStr (lit "Critical"); VStr (lit "high"); VStr (lit "Med");
      VStr (lit "low"); VStr (lit "info")] = buckets) /\
  (lookup (upper (py_str severity)) severity_map = None ->
   forallb (fun kw => negb (contains kw (upper (py_str severity))))
     [lit "CRIT"; lit "HIGH"; lit "MED"; lit "LOW"; lit "INFO"] = true ->
   _normalize_severity severity = lit "MEDIUM").
Proof.
  intros severity. split; [apply normalize_severity_bucket|].
  split; [apply normalize_bucket_fixed, normalize_severity_bucket|].
  split; [repeat split; reflexivity|].
  intros Hmap Hkw. unfold _normalize_severity. rewrite Hmap.
  cbn [forallb] in Hkw.
  repeat (apply andb_true_iff in Hkw; destruct Hkw as [?H Hkw]).
  repeat match goal with
         | H : negb ?b = true |- _ =>
             apply negb_true_iff in H; rewrite H
         end.
  reflexivity.
Qed.

End InterpreterFacts.

Section SummaryFacts.
Context {U : UnicodeData} {R : Runtime}.
Import QScannerCloudRun.
Local Open Scope Z_scope.

Lemma bump_bucket : forall (b : str) (s : vuln_summary),
  In b buckets ->
  exists s', bump b s = Return s' /\
    bucket_sum s' = bucket_sum s + 1 /\
    total s' = total s /\ details s' = details s.
Proof.
  intros b s Hb. cbn in Hb.
  destruct Hb as [<-|[<-|[<-|[<-|[<-|[]]]]]];
    (eexists; split; [reflexivity|]); unfold bucket_sum; cbn;
    repeat split; lia.
Qed.

Lemma bind_Return : forall A B (m : outcome A) (k : A -> outcome B) b,
  bind m k = Return b -> exists a, m = Return a /\ k a = Return b.
Proof.
  intros A B [a|e] k b H; cbn in H; [eauto|discriminate].
Qed.

Ltac bind_inv H :=
  let a := fresh "x" in
  let Ha := fresh "E" in
  apply bind_Return in H; destruct H as [a [Ha H]].

(** One finding adds one to one bucket, one to the total and one detail
    record. *)
Lemma add_finding_step : forall (s s' : vuln_summary) (vuln : value),
  add_finding s vuln = Return s' ->
  bucket_sum s' = bucket_sum s + 1 /\
  total s' = total s + 1 /\
  List.length (details s') = S (List.length (details s)).
Proof.
  intros s s' vuln H. unfold add_finding in H.
  bind_inv H.
  destruct (bump_bucket s (normalize_severity_bucket x))
    as [s1 [Hb [Hsum [Htot Hdet]]]].
  rewrite Hb in H. cbn [bind] in H.
  do 6 bind_inv H.
  inversion H; subst s'; clear H. unfold bucket_sum in *. cbn.
  rewrite length_app, Hdet. cbn. repeat split; lia.
Qed.

Lemma for_each_add_finding : forall findings s s',
  for_each add_finding findings s = Return s' ->
  bucket_sum s' = bucket_sum s + Z.of_nat (List.length findings) /\
  total s' = total s + Z.of_nat (List.length findings) /\
  List.length (details s')
    = (List.length (details s) + List.length findings)%nat.
Proof.
  induction findings as [|v rest IH]; intros s s' H; cbn in H.
  - inversion H; subst. cbn. repeat split; lia.
  - bind_inv H. apply add_finding_step in E. apply IH in H.
    cbn [List.length]. lia.
Qed.

(** A dictionary answers every [get]. *)
Lemma get_dict : forall items k d,
  get (VDict items) k d
    = Return (match lookup k items with Some x => x | None => d end).
Proof. reflexivity. Qed.

Lemma add_finding_dict : forall s items,
  exists s', add_finding s (VDict items) = Return s'.
Proof.
  intros s items. unfold add_finding, get_or, package_field.
  rewrite !get_dict. cbn [bind].
  match goal with
  | |- context [bump ?b s] =>
      destruct (@bump_bucket b s) as [s1 [Hb _]];
      [apply normalize_severity_bucket|rewrite Hb]
  end.
  cbn [bind].
  repeat match goal with
         | |- context [if truthy ?x then _ else _] =>
             destruct (truthy x); cbn [bind]; rewrite ?get_dict
         end;
    (destruct (lookup (lit "package") items) as [p|];
     [destruct p|]; cbn; eauto).
Qed.

Lemma for_each_dicts : forall dicts s,
  exists s', for_each add_finding (map VDict dicts) s = Return s'.
Proof.
  induction dicts as [|d rest IH]; intros s; cbn [map for_each].
  - eauto.
  - destruct (add_finding_dict s d) as [s1 ->]. cbn [bind]. apply IH.
Qed.

(** C9: whenever [_parse_vulnerabilities] builds a summary, the five
    severity counters add up to [total] and [details] has [total]
    entries; and it does build one when the findings are a list of
    dictionaries at the top of the output, with one entry per finding. *)
Theorem parse_vulnerabilities_consistent : forall scan_results : value,
  match _parse_vulnerabilities scan_results with
  | Return s => consistent s
  | Raise _ => True
  end /\
  forall (rest : list (str * value)) (dicts : list (list (str * value))),
    exists s,
      _parse_vulnerabilities
        (VDict ((lit "vulnerabilities", VList (map VDict dicts)) :: rest))
        = Return s /\
      consistent s /\ total s = Z.of_nat (List.length dicts).
Proof.
  intros scan_results.
  assert (Inv : forall sr s, _parse_vulnerabilities sr = Return s ->
            consistent s /\
            forall findings, (let* v := find_section (lit "vulnerabilities") sr in iter v) = Return findings ->
              total s = Z.of_nat (List.length findings)).
  { intros sr s H. unfold _parse_vulnerabilities in H.
    bind_inv H. bind_inv H. apply for_each_add_finding in H.
    cbn in H. unfold consistent. split; [lia|].
    intros findings Hf. rewrite E in Hf. cbn in Hf. rewrite E0 in Hf.
    inversion Hf; subst. lia. }
  split.
  - destruct (_parse_vulnerabilities scan_results) as [s|e] eqn:E;
      [apply (Inv _ _ E)|exact I].
  - intros rest dicts.
    destruct (for_each_dicts dicts empty_summary) as [s Hs].
    exists s.
    assert (E : _parse_vulnerabilities
                  (VDict ((lit "vulnerabilities", VList (map VDict dicts))
                            :: rest)) = Return s).
    { unfold _parse_vulnerabilities, find_section. cbn. exact Hs. }
    split; [exact E|]. destruct (Inv _ _ E) as [Hc Ht].
    split; [exact Hc|].
    rewrite (Ht (map VDict dicts)); [rewrite length_map; reflexivity|].
    reflexivity.
Qed.

(** The same holds when the findings are under ["results"]. *)
Lemma parse_vulnerabilities_nested : forall dicts : list (list (str * value)),
  exists s,
    _parse_vulnerabilities
      (VDict [(lit "results",
               VDict [(lit "vulnerabilities", VList (map VDict dicts))])])
      = Return s /\
    consistent s /\ total s = Z.of_nat (List.length dicts).
Proof.
  intros dicts.
  destruct (for_each_dicts dicts empty_summary) as [s Hs].
  exists s.
  assert (E : _parse_vulnerabilities
      (VDict [(lit "results",
               VDict [(lit "vulnerabilities", VList (map VDict dicts))])])
      = Return s).
  { unfold _parse_vulnerabilities, find_section. cbn. exact Hs. }
  split; [exact E|].
  apply for_each_add_finding in Hs. cbn in Hs.
  rewrite length_map in Hs. unfold consistent. repeat split; lia.
Qed.

(** When [json.loads] rejects the raw output with a [JSONDecodeError],
    [_parse_qscanner_output] does not raise: it returns a dictionary whose
    status is PARSE_ERROR and which holds the raw text and the message of
    the error. *)
Theorem parse_qscanner_output_parse_error : forall (output msg : str),
  json_loads output = Raise (mk_exn JSONDecodeError msg) ->
  _parse_qscanner_output output
    = Return (VDict [(lit "status", VStr (lit "PARSE_ERROR"));
                     (lit "raw_output", VStr output);
                     (lit "error", VStr msg)]).
Proof.
  intros output msg H. unfold _parse_qscanner_output. rewrite H.
  reflexivity.
Qed.

(** Decoded output is returned as it is, so the function raises only if
    [json.loads] raises something other than a [JSONDecodeError]. *)
Lemma parse_qscanner_output_total : forall output : str,
  match json_loads output with
  | Return data => _parse_qscanner_output output = Return data
  | Raise e =>
      exc_type e = JSONDecodeError ->
      exists d, _parse_qscanner_output output = Return (VDict d) /\
        lookup (lit "status") d = Some (VStr (lit "PARSE_ERROR"))
  end.
Proof.
  intros output. unfold _parse_qscanner_output.
  destruct (json_loads output) as [data|e]; [reflexivity|].
  intros He. unfold isinstance_exc. rewrite He. cbn. eauto.
Qed.

End SummaryFacts.

(** * qualys_scanner_cloudrun.py: what scan_image returns *)

Section ScanImageFacts.
Context {U : UnicodeData} {R : Runtime}.
Import QScannerCloudRun.

Variable W : Type.
Variable utcnow : M W datetime.
Variable logging : level -> str -> M W unit.
Variable _run_qscanner_job : str -> str -> value -> M W str.
Variable _delete_job : str -> M W unit.

Lemma bindM_Return : forall A B (m : M W A) (k : A -> M W B) w b w',
  bindM m k w = (Return b, w') ->
  exists a w1, m w = (Return a, w1) /\ k a w1 = (Return b, w').
Proof.
  intros A B m k w b w' H. unfold bindM in H.
  destruct (m w) as [[a|e] w1]; [eauto|discriminate].
Qed.

Ltac bindM_inv H :=
  let a := fresh "x" in
  let w := fresh "w" in
  let E := fresh "E" in
  apply bindM_Return in H; destruct H as [a [w [E H]]].

(** The PARSE_ERROR dictionary passes through the two summaries: it has
    neither findings nor checks. *)
Lemma parse_error_summaries : forall output msg : str,
  let d := VDict [(lit "status", VStr (lit "PARSE_ERROR"));
                  (lit "raw_output", VStr output);
                  (lit "error", VStr msg)] in
  _parse_vulnerabilities d = Return empty_summary /\
  _parse_compliance d = Return empty_compliance.
Proof. intros output msg. split; reflexivity. Qed.

(** Whatever [scan_image] returns has the status COMPLETED: the
    PARSE_ERROR dictionary of [_parse_qscanner_output] is kept under
    [metadata.raw_output] only. *)
Lemma scan_image_status : forall registry repository tag digest custom_tags
    (w w' : W) (r : value),
  scan_image utcnow logging _run_qscanner_job _delete_job
    registry repository tag digest custom_tags w = (Return r, w') ->
  exists items metadata image_id job_name scan_output w1 w2,
    _run_qscanner_job image_id job_name custom_tags w1
      = (Return scan_output, w2) /\
    r = VDict items /\
    lookup (lit "status") items = Some (VStr (lit "COMPLETED")) /\
    lookup (lit "metadata") items = Some (VDict metadata) /\
    Return (match lookup (lit "raw_output") metadata with
            | Some v => v
            | None => VNone
            end) = _parse_qscanner_output scan_output.
Proof.
  intros registry repository tag digest custom_tags w w' r H.
  unfold scan_image in H. do 2 bindM_inv H.
  unfold try_finally in H.
  match type of H with
  | (let (_, _) := ?body ?w0 in _) = _ =>
      destruct (body w0) as [[r0|e0] w2] eqn:Hbody
  end.
  2: { destruct (try_except _ _ _ w2) as [[[]|e1] w3]; discriminate. }
  assert (r0 = r).
  { destruct (try_except _ _ _ w2) as [[[]|e1] w3];
      [inversion H; reflexivity|discriminate]. }
  subst r0. clear H.
  unfold try_except in Hbody.
  match type of Hbody with
  | (let (_, _) := ?body ?w0 in _) = _ =>
      destruct (body w0) as [[r0|e0] w3] eqn:Hinner
  end.
  2: { cbn in Hbody. unfold bindM, raise in Hbody.
       destruct (logging _ _ w3) as [[[]|e1] w4]; discriminate. }
  inversion Hbody; subst r0 w3; clear Hbody.
  do 6 bindM_inv Hinner.
  unfold ret in Hinner. inversion Hinner; subst r; clear Hinner.
  unfold lift in E2. inversion E2; subst.
  eexists _, _, _, _, x1, _, _. split; [exact E1|].
  split; [reflexivity|]. split; [reflexivity|].
  split; [reflexivity|]. cbn. symmetry. assumption.
Qed.

End ScanImageFacts.

(** * image_parser.py: tags and digests *)

Section SplitFacts.

Lemma startswith_app : forall p s,
  startswith p s = true -> s = p ++ skipn (len p) s.
Proof.
  induction p as [|x p IH]; intros [|y s] H; cbn in *;
    try reflexivity; try discriminate.
  apply andb_true_iff in H. destruct H as [Hx H].
  apply N.eqb_eq in Hx. subst y. f_equal. apply IH, H.
Qed.

Lemma partition_app : forall sep s a b,
  partition sep s = Some (a, b) -> s = a ++ sep ++ b.
Proof.
  intros sep s. induction s as [|c t IH]; intros a b H; cbn in H.
  - destruct (startswith sep []) eqn:E; [|discriminate].
    inversion H; subst. apply startswith_app in E. exact E.
  - destruct (startswith sep (c :: t)) eqn:E.
    + inversion H; subst. apply startswith_app in E. exact E.
    + destruct (partition sep t) as [[a' b']|]; [|discriminate].
      inversion H; subst. cbn. f_equal. apply IH. reflexivity.
Qed.

Lemma partition_contains : forall sep s,
  contains sep s = true -> exists a b, partition sep s = Some (a, b).
Proof.
  intros sep s. induction s as [|c t IH]; cbn; intros H.
  - rewrite orb_false_r in H. rewrite H. eauto.
  - destruct (startswith sep (c :: t)); [eauto|].
    cbn in H. destruct (IH H) as [a [b ->]]. eauto.
Qed.

Lemma partition_none : forall sep s,
  contains sep s = false -> partition sep s = None.
Proof.
  intros sep s. induction s as [|c t IH]; cbn; intros H.
  - rewrite orb_false_r in H. rewrite H. reflexivity.
  - apply orb_false_iff in H. destruct H as [-> H].
    rewrite (IH H). reflexivity.
Qed.

(** For a one-character separator. *)
Lemma contains_char : forall c s, contains [c] s = true <-> In c s.
Proof.
  intros c s. induction s as [|y t IH]; cbn.
  - split; [discriminate|tauto].
  - rewrite andb_true_r, orb_true_iff, IH, N.eqb_eq. intuition.
Qed.

Lemma not_contains_char : forall c s, contains [c] s = false <-> ~ In c s.
Proof.
  intros c s. rewrite <- contains_char.
  destruct (contains [c] s); intuition discriminate.
Qed.

Lemma partition_char_first : forall c s a b,
  partition [c] s = Some (a, b) -> ~ In c a.
Proof.
  intros c s. induction s as [|y t IH]; intros a b H; cbn in H.
  - discriminate.
  - rewrite andb_true_r in H. destruct (N.eqb_spec c y).
    + inversion H; subst. tauto.
    + destruct (partition [c] t) as [[a' b']|] eqn:E; [|discriminate].
      inversion H; subst. intros [Hy|Hin]; [congruence|].
      exact (IH _ _ eq_refl Hin).
Qed.

(** [rsplit] with a one-character separator cuts at its last
    occurrence. *)
Lemma rsplit1_char : forall c s,
  In c s ->
  exists a b, rsplit1 [c] s = [a; b] /\ s = a ++ [c] ++ b /\ ~ In c b.
Proof.
  intros c s Hin. unfold rsplit1, rpartition. cbn [rev app].
  assert (Hc : contains [c] (rev s) = true).
  { apply contains_char, in_rev. rewrite rev_involutive. exact Hin. }
  destruct (partition_contains _ _ Hc) as [a [b E]]. rewrite E.
  exists (rev b), (rev a). split; [reflexivity|]. split.
  - apply partition_app in E. apply (f_equal (@rev char)) in E.
    rewrite rev_involutive in E. rewrite E.
    rewrite !rev_app_distr. cbn. rewrite <- app_assoc. reflexivity.
  - apply partition_char_first in E. intros H. apply E, in_rev. exact H.
Qed.

Lemma split_nonempty : forall sep s, split sep s <> [].
Proof.
  intros sep s. unfold split. destruct (len s); cbn; [discriminate|].
  destruct (partition sep s) as [[a b]|]; discriminate.
Qed.

(** Exactly one occurrence of the separator gives two pieces. *)
Lemma split_once : forall sep s a b,
  partition sep s = Some (a, b) -> contains sep b = false ->
  sep <> [] ->
  split sep s = [a; b].
Proof.
  intros sep s a b H Hb Hsep. unfold split.
  pose proof (partition_app _ _ H) as Hs.
  destruct (len s) eqn:El.
  - subst s. unfold len in El. rewrite !length_app in El.
    destruct sep; [congruence|cbn in El; lia].
  - cbn [split_fuel]. rewrite H. f_equal.
    destruct n; cbn; [reflexivity|].
    rewrite (partition_none _ _ Hb). reflexivity.
Qed.

(** The length of the text is fuel enough for [split]: more changes
    nothing. *)
Lemma split_fuel_enough : forall sep n m s,
  sep <> [] -> (len s <= n)%nat -> (len s <= m)%nat ->
  split_fuel n sep s = split_fuel m sep s.
Proof.
  intros sep n. induction n as [|n IH]; intros m s Hsep Hn Hm.
  - destruct s; [|cbn in Hn; lia].
    destruct m; cbn; [reflexivity|].
    destruct sep; [congruence|reflexivity].
  - destruct m as [|m].
    + destruct s; [|cbn in Hm; lia]. cbn.
      destruct sep; [congruence|reflexivity].
    + cbn [split_fuel].
      destruct (partition sep s) as [[a b]|] eqn:E; [|reflexivity].
      f_equal. apply partition_app in E. subst s. unfold len in *.
      rewrite !length_app in Hn, Hm.
      destruct sep; [congruence|]. cbn in Hn, Hm.
      apply IH; [discriminate|lia|lia].
Qed.

Lemma split_none : forall sep s, contains sep s = false -> split sep s = [s].
Proof.
  intros sep s H. unfold split. destruct (len s); cbn; [reflexivity|].
  rewrite (partition_none _ _ H). reflexivity.
Qed.

End SplitFacts.

Section ParserFacts.
Import ImageParser.

Lemma split_tag_total : forall name,
  exists name' t, split_tag name = Return (name', t) /\
    (contains (lit ":") name = false -> name' = name /\ t = lit "latest") /\
    (contains (lit ":") name = true ->
       name = name' ++ lit ":" ++ t /\ contains (lit ":") t = false).
Proof.
  intros name. unfold split_tag. change (lit ":") with [58%N].
  destruct (contains [58%N] name) eqn:E.
  - apply contains_char in E.
    destruct (rsplit1_char _ _ E) as [a [b [-> [Hs Hb]]]].
    exists a, b. cbn [unpack2]. split; [reflexivity|].
    split; [discriminate|]. intros _. split; [exact Hs|].
    apply not_contains_char. exact Hb.
  - exists name, (lit "latest"). split; [reflexivity|].
    split; [auto|discriminate].
Qed.

Lemma split_registry_total : forall name,
  exists registry repository,
    split_registry name = Return (registry, repository).
Proof.
  intros name. unfold split_registry.
  pose proof (split_nonempty (lit "/") name) as Hne.
  destruct (split (lit "/") name) as [|p0 [|p1 [|p2 rest]]];
    [congruence|eauto|idtac|eauto].
  destruct (contains (lit ".") p0 || contains (lit ":") p0); eauto.
Qed.

(** Once the digest is cut off, [parse] goes through. *)
Lemma parse_after_digest : forall image_name name dg,
  split_digest image_name = Return (name, dg) ->
  exists name' t registry repository,
    split_tag name = Return (name', t) /\
    split_registry name' = Return (registry, repository) /\
    parse image_name =
      Return {| registry := registry;
                repository := repository;
                tag := t;
                digest := dg;
                full_name :=
                  match dg with
                  | Some d =>
                      if truthy_opt dg
                      then registry ++ lit "/" ++ repository ++ lit "@" ++ d
                      else registry ++ lit "/" ++ repository ++ lit ":" ++ t
                  | None => registry ++ lit "/" ++ repository ++ lit ":" ++ t
                  end;
                original :=
                  match dg with
                  | Some d =>
                      if truthy_opt dg then name' ++ lit "@" ++ d else name'
                  | None => name'
                  end |}.
Proof.
  intros image_name name dg H.
  destruct (split_tag_total name) as [name' [t [Ht _]]].
  destruct (split_registry_total name') as [registry [repository Hr]].
  exists name', t, registry, repository.
  split; [exact Ht|]. split; [exact Hr|].
  unfold parse. rewrite H. cbn [bind]. rewrite Ht. cbn [bind].
  rewrite Hr. reflexivity.
Qed.

(** With the digest cut off, a name without a colon gets the tag
    "latest", and a name with a colon is cut at its last colon: what
    follows it is the tag, whether or not that colon introduces a tag. *)
Theorem parse_tag : forall (image_name name : str) (dg : option str),
  split_digest image_name = Return (name, dg) ->
  exists info,
    parse image_name = Return info /\
    (contains (lit ":") name = false -> tag info = lit "latest") /\
    (contains (lit ":") name = true ->
       exists before,
         name = before ++ lit ":" ++ tag info /\
         contains (lit ":") (tag info) = false).
Proof.
  intros image_name name dg H.
  destruct (parse_after_digest _ H)
    as [name' [t [registry [repository [Ht [_ Hp]]]]]].
  eexists. split; [exact Hp|]. cbn [tag].
  destruct (split_tag_total name) as [n2 [t2 [Ht2 [Hno Hyes]]]].
  rewrite Ht in Ht2. inversion Ht2; subst n2 t2. split.
  - intros Hc. apply Hno, Hc.
  - intros Hc. exists name'. apply Hyes, Hc.
Qed.

End ParserFacts.

Section DigestFacts.
Import ImageParser.

(** With one digest marker, [parse] keeps what follows the marker behind
    the prefix "sha256:", and [full_name] takes the form with "@". *)
Lemma parse_single_digest : forall (image_name base rest : str),
  partition (lit "@sha256:") image_name = Some (base, rest) ->
  contains (lit "@sha256:") rest = false ->
  exists info,
    parse image_name = Return info /\
    digest info = Some (lit "sha256:" ++ rest) /\
    full_name info
      = registry info ++ lit "/" ++ repository info ++ lit "@sha256:" ++ rest.
Proof.
  intros image_name base rest Hp Hrest.
  assert (Hd : split_digest image_name
               = Return (base, Some (lit "sha256:" ++ rest))).
  { unfold split_digest.
    destruct (contains (lit "@sha256:") image_name) eqn:Ec.
    - rewrite (split_once _ Hp Hrest) by discriminate. reflexivity.
    - rewrite (partition_none _ _ Ec) in Hp. discriminate. }
  destruct (parse_after_digest _ Hd)
    as [name' [t [registry [repository [_ [_ Hparse]]]]]].
  eexists. split; [exact Hparse|]. split; reflexivity.
Qed.

(** C7 fails on the code: an image string with two digest markers
    contains "@sha256:<hex>", and [parse] raises on it instead of
    returning the digest. *)
Theorem parse_two_digest_markers :
  let image_name := lit "nginx@sha256:abc123@sha256:def456" in
  contains (lit "@sha256:def456") image_name = true /\
  split (lit "@sha256:") image_name
    = [lit "nginx"; lit "abc123"; lit "def456"] /\
  parse image_name
    = Raise (mk_exn ValueError (lit "too many values to unpack (expected 2)")).
Proof. repeat split; reflexivity. Qed.

End DigestFacts.

Section DigestCases.
Import ImageParser.

Lemma split_fuel_nonempty : forall n sep s, split_fuel n sep s <> [].
Proof.
  intros [|n] sep s; cbn; [discriminate|].
  destruct (partition sep s) as [[a b]|]; discriminate.
Qed.

Lemma contains_marker_length : forall s,
  contains (lit "@sha256:") s = true -> (8 <= len s)%nat.
Proof. intros s H. apply contains_length in H. exact H. Qed.

(** When [split_digest] returns and when it raises: it takes no marker,
    or exactly one. *)
Lemma split_digest_cases : forall image_name : str,
  match partition (lit "@sha256:") image_name with
  | None => split_digest image_name = Return (image_name, None)
  | Some (base, rest) =>
      if contains (lit "@sha256:") rest
      then split_digest image_name
           = Raise (mk_exn ValueError
                      (lit "too many values to unpack (expected 2)"))
      else split_digest image_name
           = Return (base, Some (lit "sha256:" ++ rest))
  end.
Proof.
  intros image_name. unfold split_digest.
  destruct (partition (lit "@sha256:") image_name) as [[base rest]|] eqn:Ep.
  - assert (Hc : contains (lit "@sha256:") image_name = true).
    { destruct (contains (lit "@sha256:") image_name) eqn:Ec;
        [reflexivity|].
      rewrite (partition_none _ _ Ec) in Ep. discriminate. }
    rewrite Hc.
    destruct (contains (lit "@sha256:") rest) eqn:Er.
    + pose proof (partition_app _ _ Ep) as Hs.
      pose proof (contains_marker_length _ Er) as Hl.
      destruct (partition_contains _ _ Er) as [a [b Eb]].
      unfold split.
      assert (Hlen : exists n, len image_name = S (S n)).
      { subst image_name. unfold len in *. rewrite !length_app.
        cbn [List.length lit]. exists (List.length base + 6
                                       + List.length rest)%nat. lia. }
      destruct Hlen as [n ->]. cbn [split_fuel]. rewrite Ep, Eb.
      pose proof (@split_fuel_nonempty n (lit "@sha256:") b) as Hne.
      destruct (split_fuel n (lit "@sha256:") b); [congruence|].
      reflexivity.
    + rewrite (split_once _ Ep Er) by discriminate. reflexivity.
  - destruct (contains (lit "@sha256:") image_name) eqn:Ec;
      [|reflexivity].
    destruct (partition_contains _ _ Ec) as [a [b E]]. congruence.
Qed.

(** A name without any colon has no digest and gets the tag "latest". *)
Lemma parse_no_colon : forall image_name : str,
  contains (lit ":") image_name = false ->
  exists info,
    parse image_name = Return info /\
    tag info = lit "latest" /\ digest info = None.
Proof.
  intros image_name Hc.
  assert (Hd : split_digest image_name = Return (image_name, None)).
  { pose proof (split_digest_cases image_name) as H.
    destruct (partition (lit "@sha256:") image_name) as [[base rest]|] eqn:Ep;
      [|exact H].
    apply partition_app in Ep. exfalso.
    change (lit ":") with [58%N] in Hc. apply not_contains_char in Hc.
    apply Hc. subst image_name. apply in_or_app. right.
    cbn. auto 10. }
  destruct (parse_after_digest _ Hd)
    as [name' [t [registry [repository [Ht [_ Hp]]]]]].
  eexists. split; [exact Hp|]. cbn [tag digest]. split; [|reflexivity].
  destruct (split_tag_total image_name) as [n2 [t2 [Ht2 [Hno _]]]].
  rewrite Ht in Ht2. inversion Ht2; subst. apply Hno, Hc.
Qed.

End DigestCases.

(** * qualys_scanner_cloudrun.py: job names *)

Section DigitFacts.

(** A property checked on every number of a range holds on the range. *)
Lemma checked_range : forall (P : N -> bool) (lo k : nat),
  forallb P (map N.of_nat (seq lo k)) = true ->
  forall n : N, (lo <= N.to_nat n < lo + k)%nat -> P n = true.
Proof.
  intros P lo k H n Hn. rewrite forallb_forall in H. apply H.
  apply in_map_iff. exists (N.to_nat n). split; [apply N2Nat.id|].
  apply in_seq. exact Hn.
Qed.

Lemma pad2_digits : forall n : N,
  (n < 100)%N -> digits_of_width 2 (pad 2 n) = true.
Proof.
  intros n Hn.
  apply (@checked_range (fun n => digits_of_width 2 (pad 2 n)) 0 100);
    [vm_compute; reflexivity|lia].
Qed.

Lemma digits_of_width_app : forall w1 w2 s1 s2,
  digits_of_width w1 s1 = true -> digits_of_width w2 s2 = true ->
  digits_of_width (w1 + w2) (s1 ++ s2) = true.
Proof.
  unfold digits_of_width, len. intros w1 w2 s1 s2 H1 H2.
  apply andb_true_iff in H1. destruct H1 as [L1 D1].
  apply andb_true_iff in H2. destruct H2 as [L2 D2].
  apply Nat.eqb_eq in L1, L2.
  rewrite length_app, forallb_app, D1, D2, L1, L2, Nat.eqb_refl.
  reflexivity.
Qed.

(** The digits of a number, cut in two. *)
Lemma fixed_digits_plus : forall (b a : nat) (n : N),
  fixed_digits (a + b) n
  = fixed_digits a (n / 10 ^ N.of_nat b) ++ fixed_digits b n.
Proof.
  induction b as [|b IH]; intros a n.
  - rewrite Nat.add_0_r. cbn [fixed_digits N.of_nat N.pow].
    rewrite N.div_1_r, app_nil_r. reflexivity.
  - rewrite Nat.add_succ_r. cbn [fixed_digits]. rewrite IH, <- app_assoc.
    rewrite N.Div0.div_div, Nat2N.inj_succ, N.pow_succ_r'. reflexivity.
Qed.

Lemma fixed_digits_zero : forall w : nat, fixed_digits w 0 = repeat 48%N w.
Proof.
  induction w as [|w IH]; [reflexivity|].
  cbn [fixed_digits]. change (0 / 10)%N with 0%N. rewrite IH.
  change [digit 0] with (repeat 48%N 1). rewrite <- repeat_app.
  rewrite Nat.add_1_r. reflexivity.
Qed.

Lemma strip_zeros_leading : forall (k : nat) (c : N) (s : str),
  c <> 48%N -> strip_zeros (repeat 48%N k ++ c :: s) = c :: s.
Proof.
  intros k c s Hc. induction k as [|k IH].
  - cbn. destruct s; [reflexivity|].
    destruct (N.eqb_spec c 48); [contradiction|reflexivity].
  - cbn [repeat app strip_zeros].
    destruct (repeat 48%N k ++ c :: s) eqn:E.
    + destruct k; discriminate.
    + rewrite N.eqb_refl. exact IH.
Qed.

Lemma digit_is_digit : forall n : N, is_ascii_digit (digit n) = true.
Proof.
  intros n. unfold is_ascii_digit, digit.
  assert (n mod 10 < 10)%N by (apply N.mod_upper_bound; lia).
  set (r := (n mod 10)%N) in *. clearbody r.
  apply andb_true_iff. split; apply N.leb_le; lia.
Qed.

Lemma fixed_digits_width : forall (w : nat) (n : N),
  digits_of_width w (fixed_digits w n) = true.
Proof.
  induction w as [|w IH]; intros n; [reflexivity|].
  cbn [fixed_digits]. replace (S w) with (w + 1)%nat by lia.
  apply digits_of_width_app; [apply IH|].
  unfold digits_of_width, len. cbn [List.length Nat.eqb forallb].
  rewrite digit_is_digit. reflexivity.
Qed.

(** A year of four digits is printed with its four digits. *)
Lemma year_digits : forall y : N,
  (1000 <= y <= 9999)%N -> digits_of_width 4 (decimal y) = true.
Proof.
  intros y Hy. unfold decimal.
  assert (Hl : (9 <= N.log2 y)%N).
  { change 9%N with (N.log2 1000). apply N.log2_le_mono. lia. }
  set (l := N.log2 y) in *. clearbody l.
  replace (S (N.to_nat l)) with ((S (N.to_nat l) - 4) + 4)%nat by lia.
  rewrite fixed_digits_plus.
  replace (y / 10 ^ N.of_nat 4)%N with 0%N
    by (symmetry; apply N.div_small; cbn; lia).
  rewrite fixed_digits_zero.
  pose proof (fixed_digits_width 4 y) as Hw.
  change (fixed_digits 4 y)
    with (fixed_digits 3 (y / 10) ++ [digit y]) in *.
  change (fixed_digits 3 (y / 10))
    with (fixed_digits 2 (y / 10 / 10) ++ [digit (y / 10)]) in *.
  change (fixed_digits 2 (y / 10 / 10))
    with (fixed_digits 1 (y / 10 / 10 / 10) ++ [digit (y / 10 / 10)]) in *.
  change (fixed_digits 1 (y / 10 / 10 / 10))
    with ([digit (y / 10 / 10 / 10)]) in *.
  cbn [app] in *. rewrite strip_zeros_leading; [exact Hw|].
  unfold digit.
  replace (y / 10 / 10 / 10)%N with (y / 1000)%N
    by (rewrite !N.Div0.div_div; reflexivity).
  assert (1 <= y / 1000 < 10)%N.
  { split; [apply N.div_le_lower_bound; lia|
            apply N.Div0.div_lt_upper_bound; lia]. }
  set (q := (y / 1000)%N) in *. clearbody q.
  rewrite N.mod_small by lia. lia.
Qed.

(** From year 1000 on the timestamp of a job name has fourteen digits. *)
Lemma strftime_digits : forall now : datetime,
  valid_datetime now -> (1000 <= year now)%Z ->
  digits_of_width 14 (strftime_YmdHMS now) = true.
Proof.
  intros now V Hy. unfold valid_datetime in V. unfold strftime_YmdHMS.
  change 14%nat with (4 + (2 + (2 + (2 + (2 + 2)))))%nat.
  repeat apply digits_of_width_app;
    try (apply pad2_digits; lia).
  apply year_digits. lia.
Qed.

End DigitFacts.

Section JobNameFacts.
Context {U : UnicodeData}.
Import QScannerCloudRun.

Lemma lower_ascii : forall s before,
  forallb is_ascii s = true -> lower_from before s = map ascii_lower s.
Proof.
  induction s as [|c t IH]; intros before H; cbn in *; [reflexivity|].
  apply andb_true_iff in H. destruct H as [Hc Ht].
  rewrite Hc, (IH _ Ht). reflexivity.
Qed.

Lemma job_char_of_ascii : forall c,
  is_ascii c = true ->
  job_char (if isalnum (ascii_lower c) || (ascii_lower c =? chr "-")%N
            then ascii_lower c else chr "-") = true.
Proof.
  intros c Hc. unfold is_ascii in Hc. apply N.ltb_lt in Hc.
  apply (@checked_range
           (fun c => job_char
              (if isalnum (ascii_lower c) || (ascii_lower c =? chr "-")%N
               then ascii_lower c else chr "-")) 0 128);
    [vm_compute; reflexivity|lia].
Qed.

Lemma generate_job_name_base : forall now registry repository tag,
  _generate_job_name now registry repository tag
    = base_name repository tag ++ lit "-" ++ strftime_YmdHMS now.
Proof. reflexivity. Qed.

Lemma base_name_length : forall repository tag,
  (len (base_name repository tag) <= 50)%nat.
Proof.
  intros. unfold base_name. cbv zeta.
  match goal with |- context [(max_length <? ?n)%nat] =>
    destruct (Nat.ltb_spec max_length n) as [H|H] end.
  - unfold len. rewrite length_firstn. unfold max_length. lia.
  - exact H.
Qed.

Lemma forallb_firstn : forall A (P : A -> bool) n l,
  forallb P l = true -> forallb P (firstn n l) = true.
Proof.
  intros A P n. induction n as [|n IH]; intros [|x l] H; cbn in *;
    try reflexivity.
  apply andb_true_iff in H. destruct H as [-> H]. apply IH, H.
Qed.

(** On ASCII input the base of the name has allowed characters only. *)
Lemma base_name_chars : forall repository tag,
  forallb is_ascii repository = true -> forallb is_ascii tag = true ->
  forallb job_char (base_name repository tag) = true.
Proof.
  intros repository tag Hr Ht. unfold base_name. cbv zeta.
  assert (Ha : forallb is_ascii
                 (lit "qscanner-" ++ replace (lit "/") (lit "-") repository
                    ++ lit "-" ++ tag) = true).
  { rewrite !forallb_app, Ht.
    change (lit "/") with [47%N]. change (lit "-") with [45%N].
    rewrite replace_char.
    assert (forallb is_ascii
              (map (fun c : N => if (47 =? c)%N then 45%N else c) repository)
            = true) as ->.
    { rewrite forallb_forall in *. intros c Hc. apply in_map_iff in Hc.
      destruct Hc as [c0 [<- Hc0]]. destruct (47 =? c0)%N; auto. }
    reflexivity. }
  unfold lower. rewrite (lower_ascii _ _ Ha), map_map.
  match goal with |- forallb job_char (if _ then firstn _ ?b else ?b) = true =>
    assert (Hb : forallb job_char b = true) end.
  { rewrite forallb_forall in *. intros c Hc. apply in_map_iff in Hc.
    destruct Hc as [c0 [<- Hc0]]. apply job_char_of_ascii, Ha, Hc0. }
  match goal with |- context [if ?c then _ else _] => destruct c end;
    [apply forallb_firstn|]; exact Hb.
Qed.

(** What holds of every job name: it is the base, cut to 50 characters,
    a hyphen and the timestamp; from year 1000 on the timestamp has
    fourteen digits, which makes up to 65 characters in all. *)
Lemma generate_job_name_shape : forall now registry repository tag,
  valid_datetime now -> (1000 <= year now)%Z ->
  exists base timestamp,
    _generate_job_name now registry repository tag
      = base ++ lit "-" ++ timestamp /\
    (len base <= 50)%nat /\
    digits_of_width 14 timestamp = true /\
    len (_generate_job_name now registry repository tag)
      = (len base + 15)%nat /\
    (forallb is_ascii repository = true -> forallb is_ascii tag = true ->
     forallb job_char (_generate_job_name now registry repository tag)
       = true).
Proof.
  intros now registry repository tag V Hy.
  exists (base_name repository tag), (strftime_YmdHMS now).
  pose proof (strftime_digits V Hy) as Hd.
  split; [reflexivity|]. split; [apply base_name_length|].
  split; [exact Hd|].
  unfold digits_of_width in Hd. apply andb_true_iff in Hd.
  destruct Hd as [Hl Hdig]. apply Nat.eqb_eq in Hl. split.
  - rewrite generate_job_name_base. unfold len in *.
    rewrite !length_app, Hl. cbn. lia.
  - intros Hr Ht. rewrite generate_job_name_base, !forallb_app.
    rewrite (base_name_chars _ _ Hr Ht). cbn [lit forallb].
    rewrite forallb_forall in Hdig. apply forallb_forall.
    intros c Hc. unfold job_char.
    rewrite (Hdig c Hc). apply orb_true_iff. left. apply orb_true_r.
Qed.

(** C1 fails on the code: a base of 50 characters, the hyphen and the
    fourteen digits make a job name of 65 characters, over the limit of
    63. *)
Theorem generate_job_name_exceeds_limit :
  let now :=
    {| year := 2024; month := 11; day := 2;
       hour := 3; minute := 4; second := 5; microsecond := 0 |} in
  let job_name :=
    _generate_job_name now (lit "gcr.io")
      (lit "my-project/my-team/my-very-long-service-name-backend")
      (lit "latest") in
  job_name
    = lit "qscanner-my-project-my-team-my-very-long-service-n-20241102030405"
  /\ len job_name = 65%nat.
Proof. split; vm_compute; reflexivity. Qed.

End JobNameFacts.

(** * qualys_scanner_cloudrun.py: waiting for an execution *)

Section WaitFacts.
Import QScannerCloudRun.

Context {R : Runtime}.
Variable svc : executions_client.
Variable scan_timeout : Z.
Variable execution_name : str.
Variable poll_interval : Z.

(** One turn of the loop on a pending reply: the failure, if any, is
    logged, the loop sleeps for the interval and goes on. *)
Lemma check_status_pending : forall w,
  (0 <= poll_interval)%Z ->
  pending (reply svc (polls w)) ->
  check_status svc poll_interval w =
    (Return Next,
     {| now := (now w + latency svc (polls w) + inject_Z poll_interval
                + oversleep svc (S (polls w)))%Q;
        polls := S (polls w);
        log := match reply svc (polls w) with
               | Return _ => log w
               | Raise e => status_error_line e :: log w
               end |}).
Proof.
  intros w Hi Hp. unfold check_status, try_except, bindM, get_execution.
  assert (Hs : (poll_interval <? 0)%Z = false) by (apply Z.ltb_ge; lia).
  destruct (reply svc (polls w)) as [e|e]; unfold pending in Hp;
    rewrite Hp; cbn; unfold sleep; cbn; rewrite Hs; reflexivity.
Qed.

Lemma budget_mult : forall n,
  (budget poll_interval n == inject_Z (Z.of_nat n * poll_interval))%Q.
Proof.
  induction n as [|n IH].
  - reflexivity.
  - cbn [budget]. rewrite IH, Nat2Z.inj_succ, Z.mul_succ_l, inject_Z_plus.
    reflexivity.
Qed.

Lemma timeout_test : forall elapsed : Q,
  negb (Qle_bool elapsed (inject_Z scan_timeout)) = true
  <-> (inject_Z scan_timeout < elapsed)%Q.
Proof.
  intros elapsed. rewrite negb_true_iff.
  destruct (Qle_bool elapsed (inject_Z scan_timeout)) eqn:E.
  - apply Qle_bool_iff in E. split; [discriminate|]. intros H.
    exfalso. apply (Qlt_not_le _ _ H E).
  - split; [|reflexivity]. intros _. apply Qnot_le_lt. intros H.
    apply Qle_bool_iff in H. congruence.
Qed.

Lemma poll_loop_gives_up : forall (n : nat) (start : Q) (w : world),
  (0 < poll_interval)%Z ->
  monotone_clock svc ->
  (forall k, (polls w <= k)%nat -> pending (reply svc k)) ->
  (inject_Z scan_timeout - (now w - start) < budget poll_interval n)%Q ->
  exists w',
    poll_loop svc scan_timeout execution_name poll_interval (S n) start w
      = Some (Raise (timed_out scan_timeout execution_name), w') /\
    gave_up svc scan_timeout poll_interval start n w w'.
Proof.
  induction n as [|n IH]; intros start w Hi Hm Hp Hb.
  - exists w. cbn [budget] in Hb. cbn [poll_loop].
    assert (T : (inject_Z scan_timeout < now w - start)%Q) by lra.
    rewrite (proj2 (timeout_test _) T). split; [reflexivity|].
    constructor.
    + exact T.
    + lia.
    + rewrite Nat.sub_diag. cbn. lra.
    + auto.
    + intros k e Hk. lia.
  - cbn [poll_loop].
    destruct (negb (Qle_bool (now w - start) (inject_Z scan_timeout))) eqn:T.
    + exists w. split; [reflexivity|]. apply timeout_test in T.
      constructor.
      * exact T.
      * lia.
      * rewrite Nat.sub_diag. cbn. lra.
      * auto.
      * intros k e Hk. lia.
    + rewrite check_status_pending by (try lia; apply Hp; lia).
      set (w1 := {| now := _; polls := S (polls w); log := _ |}).
      destruct (Hm (polls w)) as [Hl _]. destruct (Hm (S (polls w))) as [_ Ho].
      destruct (IH start w1 Hi Hm) as [w' [Hrun G]].
      * intros k Hk. apply Hp. cbn in Hk. lia.
      * cbn [budget] in Hb. cbn [now w1]. lra.
      * exists w'. split; [exact Hrun|]. destruct G as [G1 G2 G3 G4 G5].
        cbn [polls now log w1] in *. constructor.
        -- exact G1.
        -- lia.
        -- replace (polls w' - polls w)%nat with (S (polls w' - S (polls w)))
             by lia.
           cbn [budget]. lra.
        -- intros entry He. apply G4.
           destruct (reply svc (polls w)); [exact He|right; exact He].
        -- intros k e Hk Hr. destruct (Nat.eq_dec k (polls w)) as [->|Hne].
           ++ apply G4. rewrite Hr. left. reflexivity.
           ++ apply (G5 k e); [lia|exact Hr].
Qed.

(** More fuel does not change how the loop ends. *)
Lemma poll_loop_fuel : forall (n m : nat) start w r,
  poll_loop svc scan_timeout execution_name poll_interval n start w = Some r ->
  (n <= m)%nat ->
  poll_loop svc scan_timeout execution_name poll_interval m start w = Some r.
Proof.
  induction n as [|n IH]; intros m start w r H Hm; [discriminate|].
  destruct m as [|m]; [lia|]. cbn [poll_loop] in *.
  destruct (negb (Qle_bool (now w - start) (inject_Z scan_timeout)));
    [exact H|].
  destruct (check_status svc poll_interval w) as [[[|]|e] w1];
    try exact H.
  apply IH; [exact H|lia].
Qed.

Lemma max_polls_budget :
  (0 < poll_interval)%Z -> (inject_Z scan_timeout
     < budget poll_interval (max_polls scan_timeout poll_interval))%Q.
Proof.
  intros Hi. rewrite budget_mult. rewrite <- Zlt_Qlt. unfold max_polls.
  rewrite Z2Nat.id by lia.
  pose proof (Z.mul_succ_div_gt scan_timeout poll_interval Hi) as H.
  nia.
Qed.

(** C2: when no status report shows a completion marker, the loop of
    [_wait_for_execution_completion] ends, with enough fuel, by raising
    [TimeoutError], and it does so once the elapsed time is over the scan
    timeout.  Until then it checks the status every [poll_interval]
    seconds or more, at most [max_polls] times; a status check that fails
    with a [GoogleAPIError] is logged and the loop goes on.  The timeout
    is 1800 when [SCAN_TIMEOUT] is not set, and the interval is 10 when
    the caller passes none. *)
Theorem wait_for_execution_times_out : forall w : world,
  (0 < poll_interval)%Z ->
  monotone_clock svc ->
  (forall k, (polls w <= k)%nat -> pending (reply svc k)) ->
  exists w',
    (forall fuel, (max_polls scan_timeout poll_interval < fuel)%nat ->
       _wait_for_execution_completion svc scan_timeout execution_name
         poll_interval fuel w
       = Some (Raise (timed_out scan_timeout execution_name), w')) /\
    (inject_Z scan_timeout < now w' - now w)%Q /\
    (polls w' - polls w <= max_polls scan_timeout poll_interval)%nat /\
    (now w + inject_Z (Z.of_nat (polls w' - polls w) * poll_interval)
       <= now w')%Q /\
    (forall k e, (polls w <= k < polls w')%nat -> reply svc k = Raise e ->
                 In (status_error_line e) (log w')) /\
    init_scan_timeout None = Return 1800%Z /\
    default_poll_interval = 10%Z.
Proof.
  intros w Hi Hm Hp.
  set (w0 := {| now := now w; polls := polls w;
                log := (INFO, lit "Waiting for execution " ++ execution_name
                                ++ lit " to complete...") :: log w |}).
  destruct (@poll_loop_gives_up (max_polls scan_timeout poll_interval)
              (now w) w0 Hi Hm) as [w' [Hrun G]].
  - exact Hp.
  - pose proof (max_polls_budget Hi) as Hb. cbn [now w0]. lra.
  - exists w'. destruct G as [G1 G2 G3 G4 G5]. cbn [now polls log w0] in *.
    split.
    { intros fuel Hf. unfold _wait_for_execution_completion, logging.
      apply (poll_loop_fuel _ _ Hrun). lia. }
    split; [exact G1|]. split; [lia|]. split.
    { rewrite <- budget_mult. exact G3. }
    split; [exact G5|]. split; reflexivity.
Qed.

End WaitFacts.

(** * datetime: the order of printed timestamps *)

Section IsoformatFacts.

Lemma pad_small : forall (w : nat) (n : N),
  (n < 10 ^ N.of_nat w)%N -> pad w n = fixed_digits w n.
Proof.
  intros w n H. unfold pad. apply N.ltb_lt in H. rewrite H. reflexivity.
Qed.

(** Numbers printed on the same width compare as texts the way they
    compare as numbers. *)
Lemma fixed_digits_leb : forall (w : nat) (a b : N) (s t : str),
  (a < 10 ^ N.of_nat w)%N -> (b < 10 ^ N.of_nat w)%N ->
  str_leb (fixed_digits w a ++ s) (fixed_digits w b ++ t)
  = if (a <? b)%N then true
    else if (b <? a)%N then false
    else str_leb s t.
Proof.
  induction w as [|w IH]; intros a b s t Ha Hb.
  - cbn in Ha, Hb. assert (a = 0%N) by lia. assert (b = 0%N) by lia.
    subst. reflexivity.
  - rewrite Nat2N.inj_succ, N.pow_succ_r' in Ha, Hb.
    cbn [fixed_digits]. rewrite <- !app_assoc. cbn [app].
    rewrite IH by (apply N.Div0.div_lt_upper_bound; lia).
    cbn [str_leb]. unfold digit.
    pose proof (N.Div0.div_mod a 10) as Da.
    pose proof (N.Div0.div_mod b 10) as Db.
    assert (Ma : (a mod 10 < 10)%N) by (apply N.mod_upper_bound; lia).
    assert (Mb : (b mod 10 < 10)%N) by (apply N.mod_upper_bound; lia).
    set (qa := (a / 10)%N) in *. set (qb := (b / 10)%N) in *.
    set (ra := (a mod 10)%N) in *. set (rb := (b mod 10)%N) in *.
    destruct (N.ltb_spec qa qb), (N.ltb_spec qb qa),
      (N.ltb_spec (48 + ra) (48 + rb)),
      (N.ltb_spec (48 + rb) (48 + ra)),
      (N.ltb_spec a b), (N.ltb_spec b a);
      try reflexivity; lia.
Qed.

Lemma to_N_ltb : forall x y : Z,
  (0 <= x)%Z -> (0 <= y)%Z -> (Z.to_N x <? Z.to_N y)%N = (x <? y)%Z.
Proof.
  intros x y Hx Hy.
  destruct (N.ltb_spec (Z.to_N x) (Z.to_N y)), (Z.ltb_spec x y);
    try reflexivity; lia.
Qed.

(** The texts [isoformat] prints are ordered as the datetimes are. *)
Lemma isoformat_order : forall a b : datetime,
  valid_datetime a -> valid_datetime b ->
  str_leb (isoformat a) (isoformat b) = datetime_leb a b.
Proof.
  intros a b Va Vb. unfold valid_datetime in Va, Vb.
  unfold isoformat, datetime_leb.
  rewrite !pad_small by (cbn; lia).
  repeat (rewrite fixed_digits_leb by (cbn; lia);
          rewrite to_N_ltb by lia; rewrite (to_N_ltb (x := _ b)) by lia;
          cbn [lit app str_leb N_of_ascii N.ltb N.compare Pos.compare
                 Pos.compare_cont]).
  repeat match goal with
         | |- (if ?c then _ else _) = (if ?c then _ else _) =>
             destruct c; [reflexivity|]
         end.
  destruct (Z.eqb_spec (microsecond a) 0), (Z.eqb_spec (microsecond b) 0),
    (Z.leb_spec (microsecond a) (microsecond b));
    try reflexivity; try lia.
  all: cbn [lit app str_leb N_of_ascii N.ltb N.compare Pos.compare
              Pos.compare_cont].
  all: rewrite <- (app_nil_r (fixed_digits 6 (Z.to_N (microsecond a)))),
         <- (app_nil_r (fixed_digits 6 (Z.to_N (microsecond b)))).
  all: rewrite fixed_digits_leb by (cbn; lia).
  all: rewrite !to_N_ltb by lia.
  all: destruct (Z.ltb_spec (microsecond a) (microsecond b)),
         (Z.ltb_spec (microsecond b) (microsecond a));
         try reflexivity; lia.
Qed.

Lemma month_day_bounds : forall y n : Z,
  (0 <= n < 365)%Z ->
  (1 <= fst (month_day_from y 11 1 n) <= 12 /\
   1 <= snd (month_day_from y 11 1 n) <= 31)%Z.
Proof.
  intros y n Hn. unfold month_day_from, days_in_month. cbn [Z.eqb Z.add
    Pos.eqb Pos.add Pos.succ orb Pos.add_carry].
  destruct (is_leap y);
    repeat match goal with
           | |- context [(?a <? ?b)%Z] =>
               destruct (Z.ltb_spec a b); [cbn [fst snd]; lia|]
           end; cbn [fst snd]; lia.
Qed.

Lemma ord2ymd_bounds : forall n : Z,
  (0 < n <= max_ordinal)%Z ->
  match ord2ymd n with
  | (y, m, d) => (1 <= y <= 9999 /\ 1 <= m <= 12 /\ 1 <= d <= 31)%Z
  end.
Proof.
  intros n Hn. unfold max_ordinal in Hn. unfold ord2ymd.
  set (a := (n - 1)%Z).
  set (n400 := (a / 146097)%Z). set (b := (a mod 146097)%Z).
  set (n100 := (b / 36524)%Z). set (c := (b mod 36524)%Z).
  set (n4 := (c / 1461)%Z). set (d := (c mod 1461)%Z).
  set (n1 := (d / 365)%Z). set (e := (d mod 365)%Z).
  assert (Hy : (1 <= n400 * 400 + 1 + n100 * 100 + n4 * 4 + n1 <= 10000 /\
                (n1 = 4 \/ n100 = 4 ->
                 2 <= n400 * 400 + 1 + n100 * 100 + n4 * 4 + n1) /\
                (n1 <> 4 -> n100 <> 4 ->
                 n400 * 400 + 1 + n100 * 100 + n4 * 4 + n1 <= 9999))%Z).
  { assert (Ha : (0 <= a <= 3652058)%Z) by (subst a; lia).
    assert (Hb : (a = 146097 * n400 + b /\ 0 <= b < 146097)%Z).
    { subst n400 b. split; [apply Z.div_mod|apply Z.mod_pos_bound]; lia. }
    assert (Hc : (b = 36524 * n100 + c /\ 0 <= c < 36524)%Z).
    { subst n100 c. split; [apply Z.div_mod|apply Z.mod_pos_bound]; lia. }
    assert (Hd : (c = 1461 * n4 + d /\ 0 <= d < 1461)%Z).
    { subst n4 d. split; [apply Z.div_mod|apply Z.mod_pos_bound]; lia. }
    assert (He : (d = 365 * n1 + e /\ 0 <= e < 365)%Z).
    { subst n1 e. split; [apply Z.div_mod|apply Z.mod_pos_bound]; lia. }
    clearbody a n400 b n100 c n4 d n1 e.
    assert (0 <= n400 <= 24)%Z by lia.
    assert (0 <= n100 <= 4)%Z by lia.
    assert (0 <= n4 <= 24)%Z by lia.
    assert (0 <= n1 <= 4)%Z by lia.
    assert (n400 = 24 -> n100 <= 3)%Z by lia.
    assert (n400 = 24 -> n100 = 3 -> n4 = 24 -> n1 <= 2)%Z by lia.
    lia. }
  destruct ((n1 =? 4) || (n100 =? 4))%Z eqn:E.
  - apply orb_true_iff in E. rewrite !Z.eqb_eq in E. lia.
  - apply orb_false_iff in E. rewrite !Z.eqb_neq in E.
    pose proof (month_day_bounds
                  (n400 * 400 + 1 + n100 * 100 + n4 * 4 + n1) (n := e)) as M.
    destruct (month_day_from _ 11 1 e) as [m dd]. cbn [fst snd] in M.
    assert (0 <= e < 365)%Z by (subst e; apply Z.mod_pos_bound; lia).
    lia.
Qed.

(** The cutoff [sub_hours] computes is a datetime. *)
Lemma sub_hours_valid : forall (d c : datetime) (h : Z),
  valid_datetime d -> sub_hours d h = Return c -> valid_datetime c.
Proof.
  intros d c h V H. unfold sub_hours in H.
  destruct (_ || _)%bool; [discriminate|].
  set (secs := (ymd2ord (year d) (month d) (day d) * 86400 + hour d * 3600
                + minute d * 60 + second d - h * 3600)%Z) in *.
  destruct ((0 <? secs / 86400) && (secs / 86400 <=? max_ordinal))%Z eqn:E;
    [|discriminate].
  apply andb_true_iff in E. destruct E as [E1 E2].
  apply Z.ltb_lt in E1. apply Z.leb_le in E2.
  pose proof (ord2ymd_bounds (conj E1 E2)) as B.
  destruct (ord2ymd (secs / 86400)) as [[y m] dd].
  inversion H; subst c; clear H. unfold valid_datetime in *. cbn.
  assert (0 <= secs mod 86400 < 86400)%Z by (apply Z.mod_pos_bound; lia).
  set (r := (secs mod 86400)%Z) in *. clearbody r secs.
  assert (0 <= r / 3600 <= 23)%Z
    by (Z.to_euclidean_division_equations; lia).
  assert (0 <= r mod 3600 / 60 <= 59)%Z
    by (Z.to_euclidean_division_equations; lia).
  assert (0 <= r mod 60 <= 59)%Z
    by (Z.to_euclidean_division_equations; lia).
  lia.
Qed.

End IsoformatFacts.

(** * storage_handler.py: the recency check *)

Section RecencyFacts.
Context {U : UnicodeData} {R : Runtime}.
Import Cloud StorageHandler.

Lemma str_eqb_eq : forall a b : str, str_eqb a b = true <-> a = b.
Proof.
  induction a as [|x a IH]; intros [|y b]; cbn;
    try (split; [discriminate|congruence]); [tauto|].
  rewrite andb_true_iff, N.eqb_eq, IH. split.
  - intros [-> ->]. reflexivity.
  - intros E. inversion E. auto.
Qed.

Lemma recent_record_filter : forall image cutoff d,
  field_eq (lit "sanitized_image_name") (_sanitize_name image) d
    && field_ge (lit "timestamp_str") (isoformat cutoff) d = true
  <-> recent_record image cutoff d.
Proof.
  intros image cutoff d. unfold field_eq, field_ge, recent_record.
  rewrite andb_true_iff. split.
  - intros [H1 H2].
    destruct (lookup (lit "sanitized_image_name") (fields d)) as [[]|];
      try discriminate.
    cbn in H1. apply str_eqb_eq in H1. subst s. split; [reflexivity|].
    destruct (lookup (lit "timestamp_str") (fields d)) as [[]|];
      try discriminate.
    eauto.
  - intros [H1 [ts [H2 H3]]]. rewrite H1, H2. cbn. split; [|exact H3].
    apply str_eqb_eq. reflexivity.
Qed.

Lemma firstn_one_existsb : forall A (p : A -> bool) (l : list A),
  match firstn 1 (filter p l) with [] => false | _ :: _ => true end
  = existsb p l.
Proof.
  intros A p l. induction l as [|x l IH]; cbn; [reflexivity|].
  destruct (p x); cbn; [reflexivity|exact IH].
Qed.

Lemma is_recently_scanned_result : forall image hours w,
  exists w', is_recently_scanned image hours w
             = (Return (recently image hours w), w').
Proof.
  intros image hours w.
  unfold is_recently_scanned, recently, window, try_except, bindM, getenv,
    lift, ret, utcnow, stream_where, service_call.
  destruct hours as [h|]; cbn [clock ticks fault calls documents].
  2: destruct (py_int _) as [h|e]; cbn [isinstance_exc];
       [|eexists; reflexivity].
  all: destruct (sub_hours (clock w (ticks w)) h) as [cutoff|e];
         cbn [isinstance_exc]; [|eexists; reflexivity].
  all: destruct (fault w (calls w)) as [e|]; cbn [isinstance_exc];
         [eexists; reflexivity|].
  all: rewrite <- firstn_one_existsb.
  all: destruct (firstn 1 _) as [|d rest]; eexists; reflexivity.
Qed.

(** C4: [is_recently_scanned] never raises.  When the window and the
    cutoff can be computed and the query goes through, it returns [True]
    if and only if the collection has a record whose sanitized image name
    is that of the image and whose timestamp is not before the cutoff,
    the clock reading less the window; when the query fails it returns
    [False].  The window is 24 hours when none is given and
    [SCAN_CACHE_HOURS] is not set. *)
Theorem is_recently_scanned_iff :
  forall (image : str) (hours : option Z) (w : world),
  exists (b : bool) (w' : world),
    is_recently_scanned image hours w = (Return b, w') /\
    (forall h cutoff,
       window hours w = Return h ->
       sub_hours (clock w (ticks w)) h = Return cutoff ->
       (fault w (calls w) = None ->
        (b = true <->
         exists d, In d (documents w) /\ recent_record image cutoff d)) /\
       (forall e, fault w (calls w) = Some e -> b = false)) /\
    (hours = None -> lookup (lit "SCAN_CACHE_HOURS") (environ w) = None ->
     window hours w = Return 24%Z).
Proof.
  intros image hours w.
  destruct (is_recently_scanned_result image hours w) as [w' H].
  exists (recently image hours w), w'. split; [exact H|]. split.
  - intros h cutoff Hh Hc. unfold recently. rewrite Hh, Hc. split.
    + intros ->. rewrite existsb_exists. split.
      * intros [d [Hin Hd]]. exists d. split; [exact Hin|].
        apply recent_record_filter, Hd.
      * intros [d [Hin Hd]]. exists d. split; [exact Hin|].
        apply recent_record_filter, Hd.
    + intros e ->. reflexivity.
  - intros -> Henv. unfold window. rewrite Henv. reflexivity.
Qed.

(** For a record stamped with the [isoformat] of a datetime [t], not
    being before the cutoff is [cutoff <= t] on the calendar. *)
Lemma recent_record_chronological :
  forall (image : str) (now cutoff t : datetime) (h : Z) (d : document),
    valid_datetime now -> valid_datetime t ->
    sub_hours now h = Return cutoff ->
    lookup (lit "timestamp_str") (fields d) = Some (VStr (isoformat t)) ->
    (recent_record image cutoff d <->
     lookup (lit "sanitized_image_name") (fields d)
       = Some (VStr (_sanitize_name image)) /\
     datetime_leb cutoff t = true).
Proof.
  intros image now cutoff t h d Vn Vt Hc Ht. unfold recent_record.
  rewrite <- (isoformat_order (@sub_hours_valid _ _ _ Vn Hc) Vt). split.
  - intros [H1 [ts [H2 H3]]]. rewrite Ht in H2. inversion H2; subst ts.
    auto.
  - intros [H1 H2]. eauto.
Qed.

End RecencyFacts.

(** * storage_handler.py: saving an error record *)

Section SaveErrorFacts.
Context {U : UnicodeData} {R : Runtime}.
Import Cloud StorageHandler.

Lemma str_eqb_refl : forall s : str, str_eqb s s = true.
Proof. intros s. apply str_eqb_eq. reflexivity. Qed.

Lemma lookup_store : forall A (k : str) (v : A) (items : list (str * A)),
  lookup k (store k v items) = Some v.
Proof.
  intros A k v items. induction items as [|[k' v'] rest IH]; cbn.
  - rewrite str_eqb_refl. reflexivity.
  - destruct (str_eqb k k') eqn:E; cbn.
    + rewrite str_eqb_refl. reflexivity.
    + rewrite E. exact IH.
Qed.

(** When the storage answers, [save_error] leaves the error record in the
    bucket, under the sanitized image name and the timestamp. *)
Lemma save_error_stores :
  forall (items : list (str * value)) (timestamp : value)
         (name content : str) (w : world),
    lookup (lit "timestamp") items = Some timestamp ->
    lookup (lit "image") items = Some (VStr name) ->
    json_dumps (VDict items) = Return content ->
    fault w (calls w) = None ->
    exists w',
      save_error (VDict items) w = (Return tt, w') /\
      lookup (lit "errors/" ++ _sanitize_name name ++ lit "/"
                ++ py_str timestamp ++ lit ".json") (blobs w')
        = Some content.
Proof.
  intros items timestamp name content w Ht Hi Hj Hf.
  unfold save_error, try_except, get_with.
  destruct w as [env clk tk flt cls bl docs pub lg].
  cbn in Ht, Hi, Hf |- *. rewrite Ht, Hi. cbn. rewrite Hj.
  unfold bindM, upload_from_string, service_call, logging. cbn.
  rewrite Hf. cbn. eexists. split; [reflexivity|]. apply lookup_store.
Qed.

End SaveErrorFacts.

(** * main.py: one image's failure and the batch *)

Section BatchFacts.
Context {U : UnicodeData} {R : Runtime}.
Import Cloud StorageHandler Main.

Variable scan_image :
  str -> str -> str -> option str -> value -> M world value.
Variable project_id service_name location event_id : value.

Local Abbreviation scan_one' :=
  (scan_one scan_image project_id service_name location event_id).
Local Abbreviation process_image' :=
  (process_image scan_image project_id service_name location event_id).
Local Abbreviation for_images' :=
  (for_images scan_image project_id service_name location event_id).
Local Abbreviation process_images' :=
  (process_images scan_image project_id service_name location event_id).

(** [except Exception] catches whatever is raised. *)
Lemma try_except_Exception : forall W A (body : M W A) handler w,
  try_except body Exception_ handler w =
    match body w with
    | (Return a, w') => (Return a, w')
    | (Raise e, w') => handler e w'
    end.
Proof.
  intros. unfold try_except. destruct (body w) as [[a|e] w']; reflexivity.
Qed.

(** [save_error] never raises. *)
Lemma save_error_returns : forall error_info w,
  exists w', save_error error_info w = (Return tt, w').
Proof.
  intros error_info w. unfold save_error. rewrite try_except_Exception.
  match goal with |- context [match ?b w with _ => _ end] =>
    destruct (b w) as [[[]|e] w'] end.
  - eauto.
  - unfold logging. eauto.
Qed.

Lemma on_image_error_eq : forall image e s,
  on_image_error project_id service_name image e s =
    (Return tt,
     {| results := results s;
        outside :=
          snd (save_error
                 (error_record project_id service_name
                    (clock (outside s) (ticks (outside s))) image e)
                 (after_error_log image e (outside s))) |}).
Proof.
  intros image e s. unfold on_image_error, bindM, cloud, after_error_log.
  cbn [logging utcnow outside results fst snd with_log clock ticks].
  match goal with |- context [save_error ?r ?w] =>
    destruct (save_error_returns r w) as [w' ->] end.
  reflexivity.
Qed.

Lemma process_image_eq : forall image s,
  process_image' image s =
    match scan_one' image (announced image s) with
    | (Return _, s1) => (Return tt, s1)
    | (Raise e, s1) => on_image_error project_id service_name image e s1
    end.
Proof.
  intros image s. unfold process_image, bindM, cloud. cbn [logging].
  rewrite try_except_Exception. fold (announced image s).
  destruct (scan_one' image (announced image s)) as [[[]|e] s1]; reflexivity.
Qed.

Lemma process_image_returns : forall image s,
  exists s', process_image' image s = (Return tt, s').
Proof.
  intros image s. rewrite process_image_eq.
  destruct (scan_one' image (announced image s)) as [[[]|e] s1].
  - eauto.
  - rewrite on_image_error_eq. eauto.
Qed.

Lemma for_images_returns : forall images s,
  exists s', for_images' images s = (Return tt, s').
Proof.
  induction images as [|image rest IH]; intros s; cbn [for_images].
  - unfold ret. eauto.
  - unfold bindM. destruct (process_image_returns image s) as [s1 ->].
    apply IH.
Qed.

(** C3: the loop over the images of an event never raises, whatever goes
    wrong with an image.  When the work on an image raises, the handler
    logs the failure and passes an error record for the image to
    [save_error], which returns, and the loop goes on with the images
    that are left.  When the bucket takes the upload, the record is in it
    afterwards. *)
Theorem image_failure_is_isolated :
  forall (images : list value) (w : world),
    (exists results w',
       process_images' images w = (Return results, w')) /\
    (forall s, exists s', for_images' images s = (Return tt, s')) /\
    (forall image rest s e s1,
       scan_one' image (announced image s) = (Raise e, s1) ->
       let now := clock (outside s1) (ticks (outside s1)) in
       let record := error_record project_id service_name now image e in
       let w1 := after_error_log image e (outside s1) in
       exists w2,
         save_error record w1 = (Return tt, w2) /\
         for_images' (image :: rest) s
           = for_images' rest {| results := results s1; outside := w2 |} /\
         (forall name content,
            image = VStr name ->
            json_dumps record = Return content ->
            fault w1 (calls w1) = None ->
            lookup (lit "errors/" ++ _sanitize_name name ++ lit "/"
                      ++ isoformat now ++ lit ".json") (blobs w2)
              = Some content)).
Proof.
  intros images w. split; [|split].
  - unfold process_images.
    destruct (for_images_returns images {| results := []; outside := w |})
      as [s' ->].
    cbn [logging]. eauto.
  - apply for_images_returns.
  - intros image rest s e s1 Hscan now record w1.
    destruct (save_error_returns record w1) as [w2 Hw2].
    exists w2. split; [exact Hw2|]. split.
    + cbn [for_images]. unfold bindM at 1.
      rewrite process_image_eq, Hscan, on_image_error_eq.
      fold now. fold record. fold w1. rewrite Hw2. reflexivity.
    + intros name content -> Hj Hf.
      destruct (@save_error_stores U R
                  [(lit "timestamp", VStr (isoformat now));
                   (lit "image", VStr name);
                   (lit "error", VStr (exc_msg e));
                   (lit "service_name", service_name);
                   (lit "project_id", project_id)]
                  (VStr (isoformat now)) name content w1
                  eq_refl eq_refl Hj Hf) as [w' [Hs Hl]].
      unfold record, error_record in Hw2. rewrite Hw2 in Hs.
      inversion Hs; subst w'. exact Hl.
Qed.

End BatchFacts.

Section ScannerInBatch.
Context {U : UnicodeData} {R : Runtime}.
Import Cloud.

(** The loop with the scanner of [qualys_scanner_cloudrun.py] in it,
    whatever its two Cloud Run methods do, never raises. *)
Lemma batch_with_scanner :
  forall (_run_qscanner_job : str -> str -> value -> M world str)
         (_delete_job : str -> M world unit)
         (project_id service_name location event_id : value)
         (images : list value) (w : world),
  exists results w',
    Main.process_images
      (QScannerCloudRun.scan_image utcnow logging _run_qscanner_job
         _delete_job)
      project_id service_name location event_id images w
    = (Return results, w').
Proof.
  intros run del project_id service_name location event_id images w.
  unfold Main.process_images.
  destruct (for_images_returns
              (QScannerCloudRun.scan_image utcnow logging run del)
              project_id service_name location event_id images
              {| Main.results := []; Main.outside := w |}) as [s' ->].
  cbn [logging]. eauto.
Qed.

End ScannerInBatch.

Section ExtractFacts.
Import Cloud Main.

Lemma collect_images_dicts : forall containers images,
  collect_images (map VDict containers) images
  = (images ++ named_images containers, None).
Proof.
  induction containers as [|c rest IH]; intros images; cbn [map collect_images].
  - cbn. rewrite app_nil_r. reflexivity.
  - cbn [get named_images flat_map]. rewrite IH.
    destruct (lookup (lit "image") c) as [image|]; cbn [truthy].
    + destruct (truthy image); [rewrite <- app_assoc|]; reflexivity.
    + reflexivity.
Qed.

Lemma collect_images_truthy : forall containers images,
  Forall (fun v => truthy v = true) images ->
  Forall (fun v => truthy v = true) (fst (collect_images containers images)).
Proof.
  induction containers as [|c rest IH]; intros images H; cbn [collect_images].
  - exact H.
  - destruct (get c (lit "image") VNone) as [image|e]; [|exact H].
    apply IH. destruct (truthy image) eqn:E; [|exact H].
    apply Forall_app. split; [exact H|]. constructor; [exact E|constructor].
Qed.

Lemma collect_images_stops : forall good bad rest images,
  is_dict bad = false ->
  exists e,
    collect_images (map VDict good ++ bad :: rest) images
    = (images ++ named_images good, Some e).
Proof.
  induction good as [|c good IH]; intros bad rest images Hb.
  - cbn [map app collect_images named_images flat_map].
    rewrite app_nil_r. destruct bad; try discriminate; cbn; eauto.
  - cbn [map app collect_images get named_images flat_map].
    destruct (lookup (lit "image") c) as [image|]; cbn [truthy].
    + destruct (truthy image).
      * destruct (IH bad rest (images ++ [image]) Hb) as [e ->].
        exists e. rewrite <- app_assoc. reflexivity.
      * apply IH, Hb.
    + apply IH, Hb.
Qed.



End ExtractFacts.

Section AlertFacts.
Context {U : UnicodeData} {R : Runtime}.
Import QScannerCloudRun Cloud Main.
Local Open Scope Z_scope.

Lemma str_eqb_neq : forall a b : str, a <> b -> str_eqb a b = false.
Proof.
  intros a b H. destruct (str_eqb a b) eqn:E; [|reflexivity].
  apply str_eqb_eq in E. contradiction.
Qed.


End AlertFacts.

Section SendAlertFacts.
Context {U : UnicodeData} {R : Runtime}.
Import Cloud Main.


End SendAlertFacts.

Section SaveResultFacts.
Context {U : UnicodeData} {R : Runtime}.
Import Cloud StorageHandler.

Lemma count_of_record : forall items outer inner,
  dict_or_absent outer items ->
  exists v, count_of (VDict items) outer inner = Return v.
Proof.
  intros items outer inner H. unfold count_of, dict_or_absent in *.
  rewrite get_dict. cbn [bind].
  destruct (lookup outer items) as [[]|]; try contradiction;
    rewrite get_dict; eauto.
Qed.

Lemma upsert_In : forall d docs, In d (upsert d docs).
Proof.
  intros d docs. induction docs as [|d' rest IH]; cbn.
  - auto.
  - destruct (doc_id_eqb (doc_id d) (doc_id d')); cbn; auto.
Qed.

Ltac reduce_save :=
  repeat (rewrite ?get_dict;
          repeat match goal with
                 | H : _ = Some _ |- _ => rewrite H
                 | H : _ = Return _ |- _ => rewrite H
                 end;
          cbn [environ clock ticks fault calls blobs documents published log
               str_method isinstance_exc fst snd]).

(** What [save_scan_result] does on a record with an image, a scan id and
    a timestamp, by the answers of the bucket and of the collection. *)
Lemma save_scan_result_run :
  forall (items : list (str * value)) (name content : str)
         (scan_id timestamp : value) (w : world),
    lookup (lit "image") items = Some (VStr name) ->
    lookup (lit "scan_id") items = Some scan_id ->
    lookup (lit "timestamp") items = Some timestamp ->
    dict_or_absent (lit "vulnerabilities") items ->
    dict_or_absent (lit "compliance") items ->
    json_dumps (VDict items) = Return content ->
    exists (fs : list (str * value)) (l1 : list (level * str)),
      lookup (lit "sanitized_image_name") fs
        = Some (VStr (_sanitize_name name)) /\
      lookup (lit "timestamp_str") fs = Some timestamp /\
      lookup (lit "blob_path") fs = Some (VStr (result_blob name scan_id)) /\
      lookup (lit "image") fs = Some (VStr name) /\
      save_scan_result (VDict items) w =
        let w0 :=
          {| environ := environ w; clock := clock w;
             ticks := S (S (ticks w)); fault := fault w;
             calls := S (calls w); blobs := blobs w;
             documents := documents w; published := published w;
             log := log w |} in
        match fault w (calls w) with
        | Some e => (Raise e, with_log w0 (save_error_line e :: log w))
        | None =>
            let w1 :=
              {| environ := environ w; clock := clock w;
                 ticks := S (S (ticks w)); fault := fault w;
                 calls := S (S (calls w));
                 blobs := store (result_blob name scan_id) content (blobs w);
                 documents := documents w; published := published w;
                 log := l1 |} in
            match fault w (S (calls w)) with
            | Some e => (Raise e, with_log w1 (save_error_line e :: l1))
            | None =>
                (Return tt,
                 {| environ := environ w; clock := clock w;
                    ticks := S (S (ticks w)); fault := fault w;
                    calls := S (S (calls w));
                    blobs :=
                      store (result_blob name scan_id) content (blobs w);
                    documents :=
                      upsert {| doc_id := scan_id; fields := fs |}
                        (documents w);
                    published := published w;
                    log :=
                      (INFO, lit "Saved scan metadata to Firestore: "
                               ++ py_str scan_id) :: l1 |})
            end
        end.
Proof.
  intros items name content scan_id timestamp w Hi Hs Ht Hv Hc Hj.
  destruct (@count_of_record items (lit "vulnerabilities") (lit "CRITICAL") Hv) as [v1 E1].
  destruct (@count_of_record items (lit "vulnerabilities") (lit "HIGH") Hv) as [v2 E2].
  destruct (@count_of_record items (lit "vulnerabilities") (lit "MEDIUM") Hv) as [v3 E3].
  destruct (@count_of_record items (lit "vulnerabilities") (lit "LOW") Hv) as [v4 E4].
  destruct (@count_of_record items (lit "vulnerabilities") (lit "total") Hv) as [v5 E5].
  destruct (@count_of_record items (lit "compliance") (lit "passed") Hc) as [v6 E6].
  destruct (@count_of_record items (lit "compliance") (lit "failed") Hc) as [v7 E7].
  destruct w as [env clk tk flt cls bl docs pub lg].
  unfold save_scan_result, try_except, get_with, bindM, lift, utcnow, ret,
    upload_from_string, document_set, service_call, logging, with_log,
    raise, save_error_line, result_blob.
  do 2 eexists.
  refine (conj _ (conj _ (conj _ (conj _ _)))); cycle 4.
  - reduce_save.
    destruct (flt cls); reduce_save;
      [|destruct (flt (S cls)); reduce_save].
    3: reflexivity.
    all: reflexivity.
  - reflexivity.
  - reflexivity.
  - reflexivity.
  - reflexivity.
Qed.

Lemma lookup_store_other : forall A (k k' : str) (v : A) items,
  str_eqb k' k = false -> lookup k' (store k v items) = lookup k' items.
Proof.
  intros A k k' v items H. induction items as [|[k0 v0] rest IH]; cbn.
  - rewrite H. reflexivity.
  - destruct (str_eqb k k0) eqn:E; cbn.
    + apply str_eqb_eq in E. subst k0. rewrite H. reflexivity.
    + destruct (str_eqb k' k0); [reflexivity|exact IH].
Qed.




End SaveResultFacts.

Section ParseErrorStatus.
Import QScannerCloudRun.

(** C5 fails on the code.  When the logs of the job are not JSON,
    [_parse_qscanner_output] builds the PARSE_ERROR dictionary, but the
    result [scan_image] returns has the status COMPLETED and empty
    summaries, and keeps that dictionary under [metadata.raw_output]
    only; the record [process_cloudrun_event] makes of it and saves has
    no metadata at all, so the failed scan is stored as a completed scan
    without findings.  And an exception of [json.loads] that is no
    [JSONDecodeError] is raised again. *)
Theorem parse_error_reported_completed :
  let output := lit "qscanner: command failed" in
  let parse_error :=
    VDict [(lit "status", VStr (lit "PARSE_ERROR"));
           (lit "raw_output", VStr output);
           (lit "error",
            VStr (lit "Expecting value: line 1 column 1 (char 0)"))] in
  let scanner :=
    scan_image (U := ascii_only) (R := example_runtime)
      Cloud.utcnow Cloud.logging garbage_job quiet_delete in
  _parse_qscanner_output (R := example_runtime) output = Return parse_error /\
  (exists items metadata w',
     scanner (lit "docker.io") (lit "library/redis") (lit "latest") None
       VNone Examples.quiet_world = (Return (VDict items), w') /\
     lookup (lit "status") items = Some (VStr (lit "COMPLETED")) /\
     lookup (lit "vulnerabilities") items
       = Some (summary_value empty_summary) /\
     lookup (lit "compliance") items
       = Some (compliance_value empty_compliance) /\
     lookup (lit "metadata") items = Some (VDict metadata) /\
     lookup (lit "raw_output") metadata = Some parse_error) /\
  (exists record w' d,
     Main.process_images (U := ascii_only) (R := example_runtime) scanner
       VNone VNone VNone VNone [VStr (lit "redis")] Examples.quiet_world
     = (Return [VDict record], w') /\
     lookup (lit "status") record = Some (VStr (lit "COMPLETED")) /\
     lookup (lit "vulnerabilities") record
       = Some (summary_value empty_summary) /\
     lookup (lit "metadata") record = None /\
     In d (Cloud.documents w') /\
     lookup (lit "sanitized_image_name") (Cloud.fields d)
       = Some (VStr (lit "redis")) /\
     lookup (lit "status") (Cloud.fields d) = Some (VStr (lit "COMPLETED")) /\
     lookup (lit "vuln_total") (Cloud.fields d) = Some (VInt 0)) /\
  (forall (R : Runtime) (text : str) (e : exn),
     json_loads text = Raise e ->
     isinstance_exc e JSONDecodeError = false ->
     _parse_qscanner_output text = Raise e).
Proof.
  intros output parse_error scanner. split; [reflexivity|]. split; [|split].
  - do 3 eexists. split; [vm_compute; reflexivity|].
    repeat split; reflexivity.
  - do 3 eexists. split; [vm_compute; reflexivity|].
    split; [reflexivity|]. split; [reflexivity|]. split; [reflexivity|].
    split; [right; left; reflexivity|]. repeat split; reflexivity.
  - intros R text e H He. unfold _parse_qscanner_output. rewrite H, He.
    reflexivity.
Qed.

End ParseErrorStatus.

Section PortFacts.
Import ImageParser.

(** C6 fails on the code.  "localhost:5000/app" names a registry with a
    port and has no explicit tag, but the cut at the last colon takes
    "5000/app" as the tag, and the registry is lost: what is left has one
    segment, so it is filed under "docker.io".  With an explicit tag the
    same registry is kept. *)
Theorem parse_port_taken_as_tag :
  let image_name := lit "localhost:5000/app" in
  split_digest image_name = Return (image_name, None) /\
  rsplit1 (lit ":") image_name = [lit "localhost"; lit "5000/app"] /\
  parse image_name =
    Return {| registry := lit "docker.io";
              repository := lit "library/localhost";
              tag := lit "5000/app";
              digest := None;
              full_name := lit "docker.io/library/localhost:5000/app";
              original := lit "localhost" |} /\
  parse (lit "localhost:5000/app:latest") =
    Return {| registry := lit "localhost:5000";
              repository := lit "app";
              tag := lit "latest";
              digest := None;
              full_name := lit "localhost:5000/app:latest";
              original := lit "localhost:5000/app" |}.
Proof. repeat split; reflexivity. Qed.

End PortFacts.

Section CompletionFacts.
Import QScannerCloudRun.

Variable svc : executions_client.
Variable scan_timeout : Z.
Variable execution_name : str.
Variable poll_interval : Z.

(** One status check on a completed execution. *)
Lemma check_status_completed : forall w ex t,
  reply svc (polls w) = Return ex ->
  completion_time ex = Some t ->
  exists w',
    check_status svc poll_interval w
      = (match completion_outcome ex with
         | Return _ => Return Done
         | Raise e => Raise e
         end, w') /\
    polls w' = S (polls w) /\
    now w' = (now w + latency svc (polls w))%Q.
Proof.
  intros w ex t Hr Hc.
  unfold check_status, try_except, bindM, get_execution, completion_outcome.
  rewrite Hr, Hc. cbn [logging now polls log].
  destruct (0 <? succeeded_count ex)%Z; cbn [orb].
  - eexists. split; [reflexivity|]. split; reflexivity.
  - destruct (0 <? failed_count ex)%Z.
    + eexists. split; [reflexivity|]. split; reflexivity.
    + eexists. split; [reflexivity|]. split; reflexivity.
Qed.

(** A status check that lets the loop go on or end normally has made one
    call; it ends the loop only on a completed execution. *)
Lemma check_status_flow : forall w f w',
  check_status svc poll_interval w = (Return f, w') ->
  polls w' = S (polls w) /\
  (f = Done ->
   exists ex t,
     reply svc (polls w) = Return ex /\ completion_time ex = Some t /\
     (0 < succeeded_count ex \/ 0 < failed_count ex)%Z).
Proof.
  intros w f w' H.
  unfold check_status, try_except, bindM, get_execution, sleep in H.
  cbn [logging now polls log] in H.
  destruct (reply svc (polls w)) as [ex|e] eqn:Hr.
  - destruct (completion_time ex) as [t|] eqn:Hc.
    + destruct (0 <? succeeded_count ex)%Z eqn:Hs.
      * inversion H; subst. split; [reflexivity|]. intros _.
        exists ex, t. apply Z.ltb_lt in Hs. auto.
      * destruct (0 <? failed_count ex)%Z eqn:Hf.
        -- inversion H; subst. split; [reflexivity|]. intros _.
           exists ex, t. apply Z.ltb_lt in Hf. auto.
        -- cbn in H. discriminate.
    + destruct (poll_interval <? 0)%Z; cbn in H; [discriminate|].
      inversion H; subst. split; [reflexivity|discriminate].
  - destruct (isinstance_exc e GoogleAPIError); [|discriminate].
    cbn [logging now polls log] in H.
    destruct (poll_interval <? 0)%Z; cbn in H; [discriminate|].
    inversion H; subst. split; [reflexivity|discriminate].
Qed.

Lemma poll_loop_return : forall fuel start w w',
  poll_loop svc scan_timeout execution_name poll_interval fuel start w
    = Some (Return tt, w') ->
  (polls w < polls w')%nat /\
  exists ex t,
    reply svc (pred (polls w')) = Return ex /\
    completion_time ex = Some t /\
    (0 < succeeded_count ex \/ 0 < failed_count ex)%Z.
Proof.
  induction fuel as [|fuel IH]; intros start w w' H; [discriminate|].
  cbn [poll_loop] in H.
  destruct (negb (Qle_bool (now w - start) (inject_Z scan_timeout)));
    [discriminate|].
  destruct (check_status svc poll_interval w) as [[[|]|e] w1] eqn:Hc.
  - destruct (check_status_flow _ Hc) as [Hp _].
    destruct (IH _ _ _ H) as [Hlt Hex]. split; [lia|exact Hex].
  - destruct (check_status_flow _ Hc) as [Hp Hd].
    inversion H; subst w1. split; [lia|].
    rewrite Hp. cbn [pred]. apply Hd. reflexivity.
  - discriminate.
Qed.


End CompletionFacts.

Section JoinFacts.

Lemma join_cons : forall sep p q rest,
  join sep (p :: q :: rest) = p ++ sep ++ join sep (q :: rest).
Proof. reflexivity. Qed.

(** Joining the pieces of a split gives the text back. *)
Lemma join_split_fuel : forall sep n s, join sep (split_fuel n sep s) = s.
Proof.
  intros sep n. induction n as [|n IH]; intros s; cbn [split_fuel].
  - reflexivity.
  - destruct (partition sep s) as [[a b]|] eqn:E; [|reflexivity].
    pose proof (@split_fuel_nonempty n sep b) as Hne.
    specialize (IH b).
    destruct (split_fuel n sep b) as [|q rest]; [congruence|].
    rewrite join_cons, IH. symmetry. apply partition_app, E.
Qed.

Lemma join_split : forall sep s, join sep (split sep s) = s.
Proof. intros sep s. apply join_split_fuel. Qed.

Lemma partition_char_here : forall c a b,
  ~ In c a -> partition [c] (a ++ c :: b) = Some (a, b).
Proof.
  intros c a b. induction a as [|x a IH]; intros H.
  - cbn. rewrite N.eqb_refl. reflexivity.
  - cbn [app partition startswith]. rewrite andb_true_r.
    destruct (N.eqb_spec c x) as [->|Hne]; [exfalso; apply H; left; reflexivity|].
    rewrite IH; [reflexivity|]. intros Hin. apply H. right. exact Hin.
Qed.

Lemma partition_is_none : forall sep s,
  partition sep s = None -> contains sep s = false.
Proof.
  intros sep s H. destruct (contains sep s) eqn:E; [|reflexivity].
  destruct (partition_contains _ _ E) as [a [b E']]. congruence.
Qed.

(** No piece of a split holds the separator. *)
Lemma split_fuel_pieces : forall c n s,
  (len s <= n)%nat -> Forall (fun p => ~ In c p) (split_fuel n [c] s).
Proof.
  intros c n. induction n as [|n IH]; intros s Hn; cbn [split_fuel].
  - destruct s; [|cbn in Hn; lia]. constructor; [tauto|constructor].
  - destruct (partition [c] s) as [[a b]|] eqn:E.
    + constructor; [apply (partition_char_first _ _ E)|].
      apply IH. apply partition_app in E. subst s. unfold len in *.
      rewrite !length_app in Hn. cbn in Hn. lia.
    + constructor; [|constructor].
      apply not_contains_char, partition_is_none, E.
Qed.

Lemma split_pieces : forall c s, Forall (fun p => ~ In c p) (split [c] s).
Proof. intros c s. apply split_fuel_pieces. lia. Qed.

(** Splitting what was joined gives the pieces back, when none of them
    holds the separator. *)
Lemma split_join : forall c p pieces,
  Forall (fun q => ~ In c q) (p :: pieces) ->
  split [c] (join [c] (p :: pieces)) = p :: pieces.
Proof.
  intros c p pieces. revert p.
  induction pieces as [|q rest IH]; intros p H.
  - cbn [join]. apply split_none, not_contains_char.
    inversion H; assumption.
  - inversion H as [|? ? Hp Hrest]; subst. rewrite join_cons.
    unfold split. set (J := join [c] (q :: rest)).
    assert (E : partition [c] (p ++ [c] ++ J) = Some (p, J))
      by (apply partition_char_here, Hp).
    assert (L : len (p ++ [c] ++ J) = S (len p + len J)).
    { unfold len. rewrite !length_app. cbn. lia. }
    rewrite L. cbn [split_fuel]. rewrite E. f_equal.
    rewrite <- (IH q Hrest). fold J. unfold split.
    apply split_fuel_enough; [discriminate|lia|lia].
Qed.

(** [rsplit] with a one-character separator, at a known last
    occurrence. *)
Lemma rsplit1_here : forall c a b,
  ~ In c b -> rsplit1 [c] (a ++ c :: b) = [a; b].
Proof.
  intros c a b H. unfold rsplit1, rpartition. cbn [rev].
  rewrite rev_app_distr. cbn [rev]. rewrite <- app_assoc. cbn [app].
  rewrite partition_char_here by (rewrite <- in_rev; exact H).
  rewrite !rev_involutive. reflexivity.
Qed.

End JoinFacts.

Section ParseShape.
Import ImageParser.

(** The three steps behind a result of [parse]. *)
Lemma parse_steps : forall s info,
  parse s = Return info ->
  exists n1 name,
    split_digest s = Return (n1, digest info) /\
    split_tag n1 = Return (name, tag info) /\
    split_registry name = Return (registry info, repository info) /\
    full_name info =
      match digest info with
      | Some d =>
          if truthy_opt (digest info)
          then registry info ++ lit "/" ++ repository info ++ lit "@" ++ d
          else registry info ++ lit "/" ++ repository info ++ lit ":"
                 ++ tag info
      | None =>
          registry info ++ lit "/" ++ repository info ++ lit ":" ++ tag info
      end.
Proof.
  intros s info H. unfold parse in H.
  destruct (split_digest s) as [[n1 dg]|e] eqn:Ed; [|discriminate].
  cbn [bind] in H.
  destruct (split_tag n1) as [[name t]|e] eqn:Et; [|discriminate].
  cbn [bind] in H.
  destruct (split_registry name) as [[r p]|e] eqn:Er; [|discriminate].
  cbn [bind] in H. inversion H; subst info; clear H. cbn.
  exists n1, name. auto.
Qed.

(** What [split_registry] returns, by the pieces of the name. *)
Lemma split_registry_prefix : forall name r p,
  split_registry name = Return (r, p) ->
  ~ In 47%N r /\
  exists prefix,
    In prefix default_prefixes /\ r ++ lit "/" ++ p = prefix ++ name.
Proof.
  intros name r p H. unfold split_registry in H.
  pose proof (join_split (lit "/") name) as J.
  pose proof (split_pieces 47%N name) as F.
  change [47%N] with (lit "/") in F.
  destruct (split (lit "/") name) as [|p0 [|p1 [|p2 rest]]].
  - discriminate.
  - inversion H; subst r p. cbn [join] in J. subst p0. split.
    + cbn. intuition discriminate.
    + exists (lit "docker.io/library/"). split; [cbn; auto|reflexivity].
  - pose proof (Forall_inv F) as F0. cbn beta in F0.
    destruct (contains (lit ".") p0 || contains (lit ":") p0);
      inversion H; subst r p.
    + split; [exact F0|]. exists []. split; [cbn; auto|].
      rewrite <- J. reflexivity.
    + split; [cbn; intuition discriminate|].
      exists (lit "docker.io/"). split; [cbn; auto|].
      rewrite <- J. reflexivity.
  - pose proof (Forall_inv F) as F0. cbn beta in F0.
    inversion H; subst r p.
    split; [exact F0|]. exists []. split; [cbn; auto|].
    rewrite <- J. reflexivity.
Qed.



End ParseShape.

Section CommandFacts.
Context {R : Runtime}.
Import QScannerCloudRun.

Lemma strings_from_strings : forall (pieces : list str) (i : nat),
  strings_from i (map VStr pieces) = Return pieces.
Proof.
  induction pieces as [|p rest IH]; intros i; cbn [map strings_from].
  - reflexivity.
  - rewrite IH. reflexivity.
Qed.

Lemma join_prefixed : forall (sep p : str) (pieces : list str),
  join sep (p :: pieces) = p ++ flat_map (fun q => sep ++ q) pieces.
Proof.
  intros sep p pieces. revert p.
  induction pieces as [|q rest IH]; intros p.
  - cbn. rewrite app_nil_r. reflexivity.
  - change (join sep (p :: q :: rest)) with (p ++ sep ++ join sep (q :: rest)).
    rewrite IH. cbn [flat_map]. rewrite <- app_assoc. reflexivity.
Qed.

Lemma tag_parts_strings : forall items : list (str * value),
  flat_map (fun kv => [VStr (lit "--tag");
                       VStr (fst kv ++ lit "=" ++ py_str (snd kv))]) items
  = map VStr
      (flat_map (fun kv => [lit "--tag"; fst kv ++ lit "=" ++ py_str (snd kv)])
         items).
Proof.
  induction items as [|kv rest IH]; cbn [flat_map map app];
    [reflexivity|].
  rewrite IH. reflexivity.
Qed.

Lemma tag_parts_text : forall items : list (str * value),
  flat_map (fun q => lit " " ++ q)
    (flat_map (fun kv => [lit "--tag"; fst kv ++ lit "=" ++ py_str (snd kv)])
       items)
  = flat_map (fun kv => lit " --tag " ++ fst kv ++ lit "=" ++ py_str (snd kv))
      items.
Proof.
  induction items as [|kv rest IH]; cbn [flat_map app]; [reflexivity|].
  rewrite IH. cbn. rewrite <- ?app_assoc. reflexivity.
Qed.


End CommandFacts.

Section EventFacts.
Context {U : UnicodeData} {R : Runtime}.
Import Cloud Main.

Variable b64decode_utf8 : value -> outcome str.
Variable Scanner : Type.
Variable new_scanner : value -> M world Scanner.
Variable scan_image :
  Scanner -> str -> str -> str -> option str -> value -> M world value.
Variable new_storage : str -> str -> M world unit.
Variable event_id : value.

Local Abbreviation handler :=
  (process_cloudrun_event b64decode_utf8 new_scanner scan_image new_storage
     event_id).



End EventFacts.

Section CacheKeyFacts.
Context {U : UnicodeData} {R : Runtime}.
Import Cloud StorageHandler.

Lemma sanitize_name_length : forall name : str,
  len (_sanitize_name name) = len name.
Proof.
  intros name. rewrite sanitize_name_map. unfold len. apply length_map.
Qed.

(** The full name of a string without colon is longer than the string:
    the tag "latest" is added to it at least. *)
Lemma full_name_longer : forall (s : str) (info : ImageParser.ImageInfo),
  contains (lit ":") s = false ->
  ImageParser.parse s = Return info ->
  (len s < len (ImageParser.full_name info))%nat.
Proof.
  intros s info Hc Hp.
  destruct (parse_no_colon s Hc) as [info' [Hp' [Htag Hdg]]].
  rewrite Hp in Hp'. inversion Hp'; subst info'; clear Hp'.
  destruct (@parse_steps _ _ Hp) as [n1 [name [Hd [Ht [Hr Hf]]]]].
  rewrite Hdg in Hd, Hf.
  assert (n1 = s).
  { pose proof (split_digest_cases s) as Hcase. rewrite Hd in Hcase.
    destruct (partition (lit "@sha256:") s) as [[base rest]|].
    - destruct (contains (lit "@sha256:") rest); discriminate.
    - inversion Hcase; reflexivity. }
  subst n1.
  assert (E1 : ImageParser.split_tag s = Return (s, lit "latest"))
    by (unfold ImageParser.split_tag; rewrite Hc; reflexivity).
  rewrite E1 in Ht. inversion Ht; subst name; clear Ht.
  destruct (@split_registry_prefix _ _ _ Hr) as [_ [prefix [_ Hpre]]].
  rewrite Hf, !app_assoc.
  rewrite <- (app_assoc (ImageParser.registry info)), Hpre.
  unfold len. rewrite !length_app. cbn. lia.
Qed.

Lemma existsb_upsert : forall (p : document -> bool) d docs,
  p d = false -> existsb p docs = false ->
  existsb p (upsert d docs) = false.
Proof.
  intros p d docs Hd. induction docs as [|d' rest IH]; cbn; intros H.
  - rewrite Hd. reflexivity.
  - apply orb_false_iff in H. destruct H as [H1 H2].
    destruct (doc_id_eqb (doc_id d) (doc_id d')); cbn.
    + rewrite Hd, H2. reflexivity.
    + rewrite H1. apply IH, H2.
Qed.


End CacheKeyFacts.

(** * Examples from the specification *)

Section SpecExamples.
Import ImageParser QScannerCloudRun.

Example parse_nginx :
  parse (lit "nginx") =
  Return {| registry := lit "docker.io";
            repository := lit "library/nginx";
            tag := lit "latest";
            digest := None;
            full_name := lit "docker.io/library/nginx:latest";
            original := lit "nginx" |}.
Proof. reflexivity. Qed.

Example parse_user_repository :
  parse (lit "myuser/app") =
  Return {| registry := lit "docker.io";
            repository := lit "myuser/app";
            tag := lit "latest";
            digest := None;
            full_name := lit "docker.io/myuser/app:latest";
            original := lit "myuser/app" |}.
Proof. reflexivity. Qed.

Example parse_registry_host :
  parse (lit "registry.example.com/app") =
  Return {| registry := lit "registry.example.com";
            repository := lit "app";
            tag := lit "latest";
            digest := None;
            full_name := lit "registry.example.com/app:latest";
            original := lit "registry.example.com/app" |}.
Proof. reflexivity. Qed.

Example parse_with_tag_and_digest :
  parse (lit "gcr.io/project/app:v1@sha256:abc123") =
  Return {| registry := lit "gcr.io";
            repository := lit "project/app";
            tag := lit "v1";
            digest := Some (lit "sha256:abc123");
            full_name := lit "gcr.io/project/app@sha256:abc123";
            original := lit "gcr.io/project/app@sha256:abc123" |}.
Proof. reflexivity. Qed.

Example one_critical_finding :
  _parse_vulnerabilities (U := ascii_only) (R := example_runtime)
    (VDict [(lit "vulnerabilities",
             VList [VDict [(lit "severity", VStr (lit "5"))]])])
  = Return {| CRITICAL := 1; HIGH := 0; MEDIUM := 0; LOW := 0;
              INFORMATIONAL := 0; total := 1;
              details :=
                [VDict [(lit "qid", VNone);
                        (lit "cve", VNone);
                        (lit "severity", VStr (lit "CRITICAL"));
                        (lit "title", VNone);
                        (lit "package", VNone);
                        (lit "version", VNone);
                        (lit "fixed_version", VNone)]] |}.
Proof. reflexivity. Qed.

Example sanitize_full_name :
  StorageHandler._sanitize_name (U := ascii_only)
    (lit "gcr.io/project/app@sha256:abc123")
  = lit "gcr.io_project_app_sha256_abc123".
Proof. reflexivity. Qed.

(** The record of a scan is filed under the sanitized image string of the
    event, while the recency check asks for the sanitized full name: after
    a scan of "redis" the check for "docker.io/library/redis:latest" still
    answers [False]. *)
Example recency_key_differs :
  let w' :=
    snd (Main.process_images (U := ascii_only) (R := example_runtime)
           Examples.clean_scan VNone VNone VNone VNone
           [VStr (lit "redis")] Examples.quiet_world) in
  (exists d,
     In d (Cloud.documents w') /\
     lookup (lit "sanitized_image_name") (Cloud.fields d)
       = Some (VStr (lit "redis")) /\
     lookup (lit "timestamp_str") (Cloud.fields d)
       = Some (VStr (lit "2024-11-02T03:04:01"))) /\
  fst (StorageHandler.is_recently_scanned (U := ascii_only)
         (R := example_runtime) (lit "docker.io/library/redis:latest") None
         w')
    = Return false.
Proof.
  vm_compute. split; [|reflexivity].
  eexists. split; [right; left; reflexivity|]. split; reflexivity.
Qed.

End SpecExamples.

(** * Worked instances

    Each theorem above that has premises, applied to an example. *)

Lemma sanitize_name_idempotent_witness :
  kept (U := ascii_only) 97%N /\
  StorageHandler._sanitize_name (U := ascii_only) [97%N] = [97%N].
Proof.
  assert (K : kept (U := ascii_only) 97%N) by (left; reflexivity).
  split; [exact K|].
  exact (proj2 (proj2 (sanitize_name_idempotent (U := ascii_only) []))
           97%N K).
Defined.

Lemma normalize_severity_total_idempotent_witness :
  QScannerCloudRun._normalize_severity (U := ascii_only)
    (R := example_runtime) (VStr (lit "unknown")) = lit "MEDIUM".
Proof.
  apply (proj2 (proj2 (proj2
           (normalize_severity_total_idempotent (U := ascii_only)
              (R := example_runtime) (VStr (lit "unknown"))))));
    reflexivity.
Defined.

Lemma parse_qscanner_output_parse_error_witness :
  QScannerCloudRun._parse_qscanner_output (R := example_runtime)
    (lit "qscanner: command failed")
  = Return (VDict [(lit "status", VStr (lit "PARSE_ERROR"));
                   (lit "raw_output", VStr (lit "qscanner: command failed"));
                   (lit "error",
                    VStr (lit "Expecting value: line 1 column 1 (char 0)"))]).
Proof.
  apply (parse_qscanner_output_parse_error (R := example_runtime)).
  reflexivity.
Defined.

Lemma parse_tag_witness :
  exists info,
    ImageParser.parse (lit "localhost:5000/app:v1") = Return info /\
    exists before,
      lit "localhost:5000/app:v1"
        = before ++ lit ":" ++ ImageParser.tag info /\
      contains (lit ":") (ImageParser.tag info) = false.
Proof.
  destruct (@parse_tag (lit "localhost:5000/app:v1")
              (lit "localhost:5000/app:v1") None eq_refl)
    as [info [Hp [_ Hyes]]].
  exists info. split; [exact Hp|]. apply Hyes. reflexivity.
Defined.

Lemma wait_for_execution_times_out_witness :
  exists w',
    QScannerCloudRun._wait_for_execution_completion Examples.stuck 30
      (lit "e1") 10 5 Examples.start_world
    = Some (Raise (QScannerCloudRun.timed_out 30 (lit "e1")), w').
Proof.
  destruct (@wait_for_execution_times_out example_runtime Examples.stuck 30
              (lit "e1") 10 Examples.start_world) as [w' [H _]].
  - lia.
  - intros k. split; discriminate.
  - intros k _. cbn. destruct (Nat.even k); reflexivity.
  - exists w'. apply H. vm_compute. lia.
Defined.

Lemma is_recently_scanned_iff_witness :
  exists b w',
    StorageHandler.is_recently_scanned (U := ascii_only)
      (R := example_runtime) (lit "docker.io/library/nginx:latest") None
      Examples.quiet_world = (Return b, w') /\
    b = true.
Proof.
  destruct (is_recently_scanned_iff (U := ascii_only) (R := example_runtime)
              (lit "docker.io/library/nginx:latest") None
              Examples.quiet_world) as [b [w' [H [Hiff _]]]].
  exists b, w'. split; [exact H|].
  destruct (Hiff 24%Z
              {| year := 2024; month := 11; day := 1; hour := 3;
                 minute := 4; second := 0; microsecond := 0 |})
    as [Hrec _]; [reflexivity|vm_compute; reflexivity|].
  apply Hrec; [reflexivity|].
  eexists. split; [left; reflexivity|].
  split; [reflexivity|]. eexists. split; reflexivity.
Defined.

Lemma image_failure_is_isolated_witness :
  let s0 := {| Main.results := []; Main.outside := Examples.quiet_world |} in
  exists e s1,
    Main.scan_one (U := ascii_only) (R := example_runtime)
      Examples.failing_scan VNone VNone VNone VNone (VStr (lit "redis"))
      (announced (R := example_runtime) (VStr (lit "redis")) s0)
    = (Raise e, s1) /\
    exists w2,
      Main.for_images (U := ascii_only) (R := example_runtime)
        Examples.failing_scan VNone VNone VNone VNone
        [VStr (lit "redis"); VStr (lit "nginx")] s0
      = Main.for_images (U := ascii_only) (R := example_runtime)
          Examples.failing_scan VNone VNone VNone VNone
          [VStr (lit "nginx")]
          {| Main.results := Main.results s1; Main.outside := w2 |} /\
      exists content : str,
        lookup (lit "errors/redis/2024-11-02T03:04:01.json") (Cloud.blobs w2)
          = Some content.
Proof.
  intros s0.
  assert (H : exists e s1,
             Main.scan_one (U := ascii_only) (R := example_runtime)
               Examples.failing_scan VNone VNone VNone VNone
               (VStr (lit "redis"))
               (announced (R := example_runtime) (VStr (lit "redis")) s0)
             = (Raise e, s1))
    by (do 2 eexists; vm_compute; reflexivity).
  destruct H as [e [s1 H]]. exists e, s1. split; [exact H|].
  destruct (proj2 (proj2
              (image_failure_is_isolated (U := ascii_only)
                 (R := example_runtime) Examples.failing_scan
                 VNone VNone VNone VNone [] Examples.quiet_world))
              (VStr (lit "redis")) [VStr (lit "nginx")] s0 e s1 H)
    as [w2 [_ [Hw2 Hblob]]].
  exists w2. split; [exact Hw2|].
  exists (lit "...").
  vm_compute in H. inversion H; subst e s1; clear H.
  apply (Hblob (lit "redis")); reflexivity.
Defined.








Lemma parse_error_reported_completed_witness :
  QScannerCloudRun._parse_qscanner_output (R := nesting_runtime) (lit "[[[[")
  = Raise (mk_exn Exception_
             (lit "maximum recursion depth exceeded while decoding a JSON array from a unicode string")).
Proof.
  apply (proj2 (proj2 (proj2 parse_error_reported_completed))
           nesting_runtime (lit "[[[[")); reflexivity.
Defined.





